(** * The itinerary response-recovery pipeline of [services/geminiService.ts]

    A shallow embedding of [extractJsonFromString] and [generateItinerary],
    together with the parts of the JavaScript runtime they rely on
    (strings of UTF-16 code units, [String.prototype.trim], [indexOf],
    [lastIndexOf], [substring], [includes], the fence-removing regular
    expression, [JSON.parse], truthiness). *)

From Stdlib Require Import String Ascii List NArith ZArith Bool Lia.
From Stdlib Require Import Floats.SpecFloat DecimalString.
Import ListNotations.

Set Implicit Arguments.

(* ================================================================== *)
(** * JavaScript strings *)
(* ================================================================== *)

Module JsString.

(** A JavaScript string is a finite sequence of UTF-16 code units. *)
Definition char16 := N.
Definition jsstring := list char16.

(** Literals of the source that only use ASCII are written as Rocq strings. *)
Definition str (s : string) : jsstring :=
  map N_of_ascii (list_ascii_of_string s).

(** Test inputs that contain JSON text are written with a single quote
    wherever the JavaScript text has a double quote (code unit 34). *)
Definition jq (s : string) : jsstring :=
  map (fun c => if N.eqb c 39 then 34%N else c) (str s).

Definition char_eqb (a b : char16) : bool := N.eqb a b.

Fixpoint string_eqb (a b : jsstring) : bool :=
  match a, b with
  | [], [] => true
  | x :: a', y :: b' => char_eqb x y && string_eqb a' b'
  | _, _ => false
  end.

(** [WhiteSpace] and [LineTerminator] code points of ECMAScript: what
    [trim] strips and what [\s] matches. *)
Definition is_space (c : char16) : bool :=
  ((9 <=? c) && (c <=? 13) || (c =? 32) || (c =? 160) || (c =? 5760)
   || (8192 <=? c) && (c <=? 8202) || (c =? 8232) || (c =? 8233)
   || (c =? 8239) || (c =? 8287) || (c =? 12288) || (c =? 65279))%N.

Fixpoint trimStart (s : jsstring) : jsstring :=
  match s with
  | [] => []
  | c :: s' => if is_space c then trimStart s' else s
  end.

Fixpoint trimEnd (s : jsstring) : jsstring :=
  match s with
  | [] => []
  | c :: s' =>
      match trimEnd s' with
      | [] => if is_space c then [] else [c]
      | t => c :: t
      end
  end.

Definition trim (s : jsstring) : jsstring := trimEnd (trimStart s).

(** [starts_with pat s]: [pat] occurs in [s] at position 0. *)
Fixpoint starts_with (pat s : jsstring) : bool :=
  match pat, s with
  | [], _ => true
  | _ :: _, [] => false
  | p :: pat', c :: s' => char_eqb p c && starts_with pat' s'
  end.

(** [indexOf]: position of the first occurrence, or -1. *)
Fixpoint index_from (pat s : jsstring) (i : Z) : Z :=
  match s with
  | [] => if starts_with pat [] then i else (-1)%Z
  | _ :: s' => if starts_with pat s then i else index_from pat s' (i + 1)
  end.

Definition indexOf (s pat : jsstring) : Z := index_from pat s 0.

(** [lastIndexOf]: position of the last occurrence, or -1. *)
Fixpoint last_index_from (pat s : jsstring) (i : Z) : Z :=
  match s with
  | [] => if starts_with pat [] then i else (-1)%Z
  | _ :: s' =>
      let r := last_index_from pat s' (i + 1) in
      if (r =? -1)%Z then (if starts_with pat s then i else (-1)%Z) else r
  end.

Definition lastIndexOf (s pat : jsstring) : Z := last_index_from pat s 0.

Definition includes (s pat : jsstring) : bool :=
  negb (indexOf s pat =? -1)%Z.

(** [substring(a, b)]: both arguments are clamped to [0, length] and
    swapped when [a > b]. *)
Definition clamp (len x : Z) : Z := Z.max 0 (Z.min x len).

Definition substring (s : jsstring) (a b : Z) : jsstring :=
  let len := Z.of_nat (length s) in
  let a' := clamp len a in
  let b' := clamp len b in
  let lo := Z.min a' b' in
  let hi := Z.max a' b' in
  firstn (Z.to_nat (hi - lo)) (skipn (Z.to_nat lo) s).

(** [s[i]]: the code unit at index [i], [undefined] out of range. *)
Definition charAt (s : jsstring) (i : Z) : option char16 :=
  if (i <? 0)%Z then None else nth_error s (Z.to_nat i).

End JsString.
Import JsString.

(* ================================================================== *)
(** * The fence-removing regular expression *)
(* ================================================================== *)

Module Fence.

Definition backtick : char16 := 96%N.

Fixpoint leading_spaces (s : jsstring) : nat :=
  match s with
  | [] => 0
  | c :: s' => if is_space c then S (leading_spaces s') else 0
  end.

(** The optional group [(?:json|javascript|text)?]: alternatives are tried
    in order, and the greedy [?] takes the first that matches. *)
Definition fence_tag_length (s : jsstring) : nat :=
  if starts_with (str "json") s then 4
  else if starts_with (str "javascript") s then 10
  else if starts_with (str "text") s then 4
  else 0.

(** Length of the match of [/```(?:json|javascript|text)?\s*|```/] at the
    head of [s], if there is one. The first alternative matches whenever
    three backticks are present ([\s*] may be empty), so the second
    alternative is never taken. *)
Definition match_fence (s : jsstring) : option nat :=
  if starts_with (str "```") s then
    let t := fence_tag_length (skipn 3 s) in
    Some (3 + t + leading_spaces (skipn (3 + t) s))
  else None.

(** [input.replace(/.../g, '')]: scan from the left; where the expression
    matches, drop the match and resume after it, otherwise keep the code
    unit. [skip] counts the code units of the current match still to drop. *)
Fixpoint remove_fences_from (s : jsstring) (skip : nat) : jsstring :=
  match s with
  | [] => []
  | c :: s' =>
      match skip with
      | S k => remove_fences_from s' k
      | O =>
          match match_fence s with
          | Some n => remove_fences_from s' (n - 1)
          | None => c :: remove_fences_from s' 0
          end
      end
  end.

Definition remove_fences (s : jsstring) : jsstring := remove_fences_from s 0.

End Fence.
Import Fence.

(* ================================================================== *)
(** * JavaScript numbers and values *)
(* ================================================================== *)

Module JsValue.

(** A Number is an IEEE 754 binary64 value. *)
Definition number := spec_float.
Definition prec : Z := 53.
Definition emax : Z := 1024.

(** The Number nearest to [±m * 10^e] (round to nearest, ties to even), as
    the reading of a decimal literal produces it. *)
Definition number_of_decimal (neg : bool) (m : N) (e : Z) : number :=
  match m with
  | N0 => S754_zero neg
  | Npos p =>
      if (0 <=? e)%Z
      then binary_round prec emax neg (Z.to_pos (Zpos p * 10 ^ e)) 0
      else
        let '(q, e', l) :=
          SFdiv_core_binary prec emax (Zpos p) 0 (10 ^ (- e)) 0 in
        binary_round_aux prec emax neg q e' l
  end.

Definition number_is_finite (x : number) : bool :=
  match x with
  | S754_zero _ | S754_finite _ _ _ => true
  | S754_infinity _ | S754_nan => false
  end.

(** [ToBoolean] on a Number: false for +0, -0 and NaN. *)
Definition number_truthy (x : number) : bool :=
  match x with
  | S754_zero _ | S754_nan => false
  | S754_infinity _ | S754_finite _ _ _ => true
  end.

(** The values [JSON.parse] produces, which are also the plain objects the
    pipeline builds with object literals. An object keeps its members in
    source order, duplicates included. *)
#[warnings="-register-all"]
Inductive value : Type :=
  | JNull
  | JBool (b : bool)
  | JNumber (n : number)
  | JString (s : jsstring)
  | JArray (elements : list value)
  | JObject (members : list (jsstring * value)).

(** [ToBoolean]. *)
Definition truthy (v : value) : bool :=
  match v with
  | JNull => false
  | JBool b => b
  | JNumber n => number_truthy n
  | JString s => match s with [] => false | _ :: _ => true end
  | JArray _ | JObject _ => true
  end.

(** [ToBoolean] of a value that may be [undefined]. *)
Definition truthy_opt (v : option value) : bool :=
  match v with
  | None => false
  | Some v' => truthy v'
  end.

(** Of two members with the same key the later one wins. *)
Fixpoint lookup_member (key : jsstring) (members : list (jsstring * value))
  : option value :=
  match members with
  | [] => None
  | (k, v) :: rest =>
      match lookup_member key rest with
      | Some v' => Some v'
      | None => if string_eqb k key then Some v else None
      end
  end.

(** [v.key] for a non-null [v] and a [key] that is no array index, not
    [length] and no property of a built-in prototype; [None] is
    [undefined]. *)
Definition get_property (v : value) (key : jsstring) : option value :=
  match v with
  | JObject members => lookup_member key members
  | _ => None
  end.

Definition isArray (v : option value) : bool :=
  match v with
  | Some (JArray _) => true
  | _ => false
  end.

End JsValue.
Import JsValue.

(* ================================================================== *)
(** * [JSON.parse] *)
(* ================================================================== *)

Module Json.

Inductive parsed (A : Type) : Type :=
  | Parsed (a : A) (rest : jsstring)
  | SyntaxError
  | OutOfFuel.
Arguments SyntaxError {A}.
Arguments OutOfFuel {A}.

Definition is_json_ws (c : char16) : bool :=
  ((c =? 9) || (c =? 10) || (c =? 13) || (c =? 32))%N.

Fixpoint skip_ws (s : jsstring) : jsstring :=
  match s with
  | [] => []
  | c :: s' => if is_json_ws c then skip_ws s' else s
  end.

Definition is_digit (c : char16) : bool := ((48 <=? c) && (c <=? 57))%N.

Definition hex_value (c : char16) : option N :=
  if is_digit c then Some (c - 48)%N
  else if ((97 <=? c) && (c <=? 102))%N then Some (c - 87)%N
  else if ((65 <=? c) && (c <=? 70))%N then Some (c - 55)%N
  else None.

Definition hex4 (a b c d : char16) : option char16 :=
  match hex_value a, hex_value b, hex_value c, hex_value d with
  | Some x, Some y, Some z, Some w => Some (((x * 16 + y) * 16 + z) * 16 + w)%N
  | _, _, _, _ => None
  end.

(** The single-character escapes: quote, backslash, slash, b, f, n, r, t. *)
Definition escape_char (c : char16) : option char16 :=
  if (c =? 34)%N then Some 34%N
  else if (c =? 92)%N then Some 92%N
  else if (c =? 47)%N then Some 47%N
  else if (c =? 98)%N then Some 8%N
  else if (c =? 102)%N then Some 12%N
  else if (c =? 110)%N then Some 10%N
  else if (c =? 114)%N then Some 13%N
  else if (c =? 116)%N then Some 9%N
  else None.

Definition prepend (c : char16) (r : option (jsstring * jsstring))
  : option (jsstring * jsstring) :=
  match r with
  | Some (s, rest) => Some (c :: s, rest)
  | None => None
  end.

(** The characters of a string literal after its opening quote, up to and
    including the closing quote. *)
Fixpoint parse_string_chars (s : jsstring) : option (jsstring * jsstring) :=
  match s with
  | [] => None
  | c :: rest =>
      if (c =? 34)%N then Some ([], rest)
      else if (c =? 92)%N then
        match rest with
        | [] => None
        | e :: rest1 =>
            if (e =? 117)%N then
              match rest1 with
              | h1 :: h2 :: h3 :: h4 :: rest2 =>
                  match hex4 h1 h2 h3 h4 with
                  | Some u => prepend u (parse_string_chars rest2)
                  | None => None
                  end
              | _ => None
              end
            else
              match escape_char e with
              | Some x => prepend x (parse_string_chars rest1)
              | None => None
              end
        end
      else if (c <? 32)%N then None
      else prepend c (parse_string_chars rest)
  end.

Fixpoint span_digits (s : jsstring) : list N * jsstring :=
  match s with
  | [] => ([], [])
  | c :: s' =>
      if is_digit c
      then let '(ds, rest) := span_digits s' in ((c - 48)%N :: ds, rest)
      else ([], s)
  end.

Definition digits_value (ds : list N) : N :=
  fold_left (fun acc d => (10 * acc + d)%N) ds 0%N.

(** A number literal: an optional minus sign; an integer part that is
    either a single 0 or a non-zero digit followed by digits; an optional
    fraction (a dot and at least one digit); an optional exponent (e or E,
    an optional sign, at least one digit). *)
Definition parse_number (s : jsstring) : option (number * jsstring) :=
  let '(neg, s1) :=
    match s with
    | c :: r => if (c =? 45)%N then (true, r) else (false, s)
    | [] => (false, s)
    end in
  let int_part :=
    match s1 with
    | c :: r =>
        if (c =? 48)%N then Some ([0%N], r)
        else if is_digit c then Some (span_digits s1)
        else None
    | [] => None
    end in
  match int_part with
  | None => None
  | Some (int_digits, s2) =>
      let frac_part :=
        match s2 with
        | c :: r =>
            if (c =? 46)%N then
              match span_digits r with
              | ([], _) => None
              | (ds, r') => Some (ds, r')
              end
            else Some ([], s2)
        | [] => Some ([], s2)
        end in
      match frac_part with
      | None => None
      | Some (frac_digits, s3) =>
          let exp_part :=
            match s3 with
            | c :: r =>
                if ((c =? 101) || (c =? 69))%N then
                  let '(eneg, r1) :=
                    match r with
                    | sg :: r' =>
                        if (sg =? 45)%N then (true, r')
                        else if (sg =? 43)%N then (false, r')
                        else (false, r)
                    | [] => (false, r)
                    end in
                  match span_digits r1 with
                  | ([], _) => None
                  | (ds, r2) =>
                      let e := Z.of_N (digits_value ds) in
                      Some (if eneg then (- e)%Z else e, r2)
                  end
                else Some (0%Z, s3)
            | [] => Some (0%Z, s3)
            end in
          match exp_part with
          | None => None
          | Some (e, s4) =>
              Some (number_of_decimal neg
                      (digits_value (int_digits ++ frac_digits))
                      (e - Z.of_nat (length frac_digits)),
                    s4)
          end
      end
  end.

Definition with_rest {A B : Type} (f : A -> B) (r : parsed A) : parsed B :=
  match r with
  | Parsed a rest => Parsed (f a) rest
  | SyntaxError => SyntaxError
  | OutOfFuel => OutOfFuel
  end.

(** Recursive descent; each nested call spends one unit of [fuel]. *)
Fixpoint parse_value (fuel : nat) (s : jsstring) : parsed value :=
  match fuel with
  | O => OutOfFuel
  | S fuel' =>
      match skip_ws s with
      | [] => SyntaxError
      | c :: rest =>
          if (c =? 123)%N then
            match skip_ws rest with
            | c2 :: rest2 =>
                if (c2 =? 125)%N then Parsed (JObject []) rest2
                else with_rest JObject (parse_members fuel' rest)
            | [] => SyntaxError
            end
          else if (c =? 91)%N then
            match skip_ws rest with
            | c2 :: rest2 =>
                if (c2 =? 93)%N then Parsed (JArray []) rest2
                else with_rest JArray (parse_elements fuel' rest)
            | [] => SyntaxError
            end
          else if (c =? 34)%N then
            match parse_string_chars rest with
            | Some (t, r) => Parsed (JString t) r
            | None => SyntaxError
            end
          else if starts_with (str "true") (c :: rest)
          then Parsed (JBool true) (skipn 4 (c :: rest))
          else if starts_with (str "false") (c :: rest)
          then Parsed (JBool false) (skipn 5 (c :: rest))
          else if starts_with (str "null") (c :: rest)
          then Parsed JNull (skipn 4 (c :: rest))
          else
            match parse_number (c :: rest) with
            | Some (n, r) => Parsed (JNumber n) r
            | None => SyntaxError
            end
      end
  end
with parse_elements (fuel : nat) (s : jsstring) : parsed (list value) :=
  match fuel with
  | O => OutOfFuel
  | S fuel' =>
      match parse_value fuel' s with
      | Parsed v r =>
          match skip_ws r with
          | c :: r' =>
              if (c =? 44)%N
              then with_rest (cons v) (parse_elements fuel' r')
              else if (c =? 93)%N then Parsed [v] r'
              else SyntaxError
          | [] => SyntaxError
          end
      | SyntaxError => SyntaxError
      | OutOfFuel => OutOfFuel
      end
  end
with parse_members (fuel : nat) (s : jsstring)
  : parsed (list (jsstring * value)) :=
  match fuel with
  | O => OutOfFuel
  | S fuel' =>
      match skip_ws s with
      | c :: r0 =>
          if (c =? 34)%N then
            match parse_string_chars r0 with
            | Some (k, r1) =>
                match skip_ws r1 with
                | c1 :: r2 =>
                    if (c1 =? 58)%N then
                      match parse_value fuel' r2 with
                      | Parsed v r3 =>
                          match skip_ws r3 with
                          | c3 :: r4 =>
                              if (c3 =? 44)%N
                              then with_rest (cons (k, v))
                                     (parse_members fuel' r4)
                              else if (c3 =? 125)%N then Parsed [(k, v)] r4
                              else SyntaxError
                          | [] => SyntaxError
                          end
                      | SyntaxError => SyntaxError
                      | OutOfFuel => OutOfFuel
                      end
                    else SyntaxError
                | [] => SyntaxError
                end
            | None => SyntaxError
            end
          else SyntaxError
      | [] => SyntaxError
      end
  end.

(** Fuel that never runs out on [s] (see [JSON_parse_fuel]). *)
Definition enough_fuel (s : jsstring) : nat := 2 * length s + 1.

(** [JSON.parse(s)]; [None] stands for the [SyntaxError] it throws. *)
Definition JSON_parse (s : jsstring) : option value :=
  match parse_value (enough_fuel s) s with
  | Parsed v rest =>
      match skip_ws rest with
      | [] => Some v
      | _ :: _ => None
      end
  | _ => None
  end.

End Json.
Import Json.

(* ================================================================== *)
(** * [extractJsonFromString] *)
(* ================================================================== *)

Module Extractor.

Definition open_brace : char16 := 123%N.
Definition close_brace : char16 := 125%N.
Definition open_bracket : char16 := 91%N.
Definition close_bracket : char16 := 93%N.

(** Step 1: [input.replace(/```(?:json|javascript|text)?\s*|```/g, '').trim()]. *)
Definition cleanedInput (input : jsstring) : jsstring :=
  trim (remove_fences input).

(** The start of the JSON, either a brace or a bracket, or -1. *)
Definition firstCharIndex (cleaned : jsstring) : Z :=
  let firstBrace := indexOf cleaned [open_brace] in
  let firstBracket := indexOf cleaned [open_bracket] in
  if negb (firstBrace =? -1)%Z
     && ((firstBracket =? -1)%Z || (firstBrace <? firstBracket)%Z)
  then firstBrace
  else if negb (firstBracket =? -1)%Z then firstBracket
  else (-1)%Z.

(** The last closing brace or bracket, chosen by the kind of the start. *)
Definition lastCharIndex (cleaned : jsstring) (first : Z) : Z :=
  match charAt cleaned first with
  | Some typeOfStart =>
      if char_eqb typeOfStart open_brace
      then lastIndexOf cleaned [close_brace]
      else if char_eqb typeOfStart open_bracket
      then lastIndexOf cleaned [close_bracket]
      else (-1)%Z
  | None => (-1)%Z
  end.

(** The slice of the cleaned input between the two indices, when both
    are found and in order. *)
Definition sliceCandidate (cleaned : jsstring) : option jsstring :=
  let first := firstCharIndex cleaned in
  if (first =? -1)%Z then None
  else
    let last := lastCharIndex cleaned first in
    if (last =? -1)%Z || (last <? first)%Z then None
    else Some (substring cleaned first (last + 1)).

(** The slice handed to [JSON.parse], when there is one. *)
Definition jsonCandidate (input : jsstring) : option jsstring :=
  sliceCandidate (cleanedInput input).

(** Step 2: the candidate is returned when it is non-empty and parses. *)
Definition extractJsonFromString (input : jsstring) : option jsstring :=
  match jsonCandidate input with
  | None => None
  | Some [] => None
  | Some (c :: rest) =>
      match JSON_parse (c :: rest) with
      | Some _ => Some (c :: rest)
      | None => None
      end
  end.

End Extractor.
Import Extractor.

(* ================================================================== *)
(** * [generateItinerary] *)
(* ================================================================== *)

Module Pipeline.

(** ** Data *)

(** An optional coordinate of the preferences: the property is missing,
    holds [null], or holds a Number. *)
Inductive coordinate : Type :=
  | Absent
  | Null
  | Coord (x : number).

(** Modelled from the spec: the declaration of [TravelPreferences]
    (types.ts) is not among the sources; the fields are those that
    [generateItinerary] destructures, with the types of the PreferenceModel
    of the data model. *)
Record TravelPreferences : Type := {
  destination : jsstring;
  duration : number;
  interests : jsstring;
  budget : number;
  currency : jsstring;
  latitude : coordinate;
  longitude : coordinate
}.

(** [ToBoolean] on a coordinate. *)
Definition coordinate_truthy (c : coordinate) : bool :=
  match c with
  | Absent | Null => false
  | Coord x => number_truthy x
  end.

(** The request handed to [ai.models.generateContent]. *)
Inductive Tool : Type := googleMaps | googleSearch.

Record LatLng : Type := {
  latLng_latitude : coordinate;
  latLng_longitude : coordinate
}.

Record ToolConfig : Type := { retrievalConfig_latLng : LatLng }.

Inductive SchemaType : Type := OBJECT | ARRAY | STRING | NUMBER.

#[warnings="-register-all"]
Inductive Schema : Type :=
  mkSchema (type : SchemaType) (description : option jsstring)
           (properties : list (jsstring * Schema)) (items : option Schema)
           (required : list jsstring).

Record GenerateContentConfig : Type := {
  temperature : number;
  topP : number;
  topK : number;
  tools : list Tool;
  toolConfig : option ToolConfig;
  responseMimeType : option jsstring;
  responseSchema : option Schema
}.

Record Request : Type := {
  model : jsstring;
  contents : jsstring;
  config : GenerateContentConfig
}.

(** The response of the Model Client, as far as the pipeline reads it.
    Every property may be missing ([None] is [undefined]). *)
Record ReviewSnippet : Type := {
  snippet_uri : option jsstring;
  snippet_title : option jsstring
}.

Record WebChunk : Type := {
  web_uri : option jsstring;
  web_title : option jsstring
}.

Record MapsChunk : Type := {
  maps_uri : option jsstring;
  maps_title : option jsstring;
  (** [placeAnswerSources?.reviewSnippets] *)
  maps_reviewSnippets : option (list ReviewSnippet)
}.

Record GroundingChunk : Type := {
  web : option WebChunk;
  maps : option MapsChunk
}.

Record Candidate : Type := {
  (** [groundingMetadata?.groundingChunks] *)
  groundingChunks : option (list GroundingChunk)
}.

Record Response : Type := {
  text : option jsstring;
  candidates : option (list Candidate)
}.

Record Citation : Type := {
  uri : option jsstring;
  title : option jsstring
}.

Record ItineraryResult : Type := {
  itineraryData : value;
  sourceUrls : list Citation
}.

(** A thrown value, as the [catch] block reads it: either a value with a
    string [message], of which [instanceofError] tells whether it is an
    instance of [Error]; or a value on which [error.message.includes]
    cannot be evaluated (a string, a number, [null], [undefined], an
    object without [message]), with the message of the [TypeError] that
    the attempt raises. *)
Inductive Exception : Type :=
  | WithMessage (instanceofError : bool) (message : jsstring)
  | Messageless (typeError : jsstring).

(** [new Error(msg)] *)
Definition Error (msg : jsstring) : Exception := WithMessage true msg.

(** How the promise of the Model Client settles. *)
Inductive Outcome : Type :=
  | Fulfilled (response : Response)
  | Rejected (reason : Exception).

(** An asynchronous computation: it resolves, rejects, or awaits one call
    of the Model Client and goes on with the way the call settled. *)
Inductive Async (A : Type) : Type :=
  | Resolve (a : A)
  | Reject (e : Exception)
  | Await (req : Request) (k : Outcome -> Async A).
Arguments Reject {A}.

Inductive Settled (A : Type) : Type :=
  | Returned (a : A)
  | Thrown (e : Exception).
Arguments Thrown {A}.

(** A Model Client answers its [n]-th call (counted from 0) to a request. *)
Definition ModelClient : Type := nat -> Request -> Outcome.

(** Running a computation against a client; the second component counts
    the calls made to the client. *)
Fixpoint run {A : Type} (client : ModelClient) (calls : nat) (p : Async A)
  : Settled A * nat :=
  match p with
  | Resolve a => (Returned a, calls)
  | Reject e => (Thrown e, calls)
  | Await req k => run client (S calls) (k (client calls req))
  end.

(** What the host supplies: the Number-to-String conversion used by
    template literals, and the message of the [TypeError] raised by
    reading [trim] of [undefined]. *)
Record Host : Type := {
  Number_toString : number -> jsstring;
  undefined_trim_message : jsstring
}.

(** ** Fixed texts *)

Definition nl : jsstring := [10%N].
Definition dquote : jsstring := [34%N].

Definition notes_text : jsstring :=
  str "Itinerary tidak dapat diuraikan ke format terstruktur. Silakan lihat bagian ikhtisar untuk detail dan periksa tautan sumber.".

Definition review_link : jsstring := str "Review Link".

Definition entity_not_found : jsstring :=
  str "Requested entity was not found.".

Definition api_key_message : jsstring :=
  str "Kunci API mungkin tidak valid atau tidak terpilih. Harap pastikan Anda telah memilih kunci API berbayar yang valid melalui dialog pemilihan kunci API.".

Definition api_error_prefix : jsstring := str "Kesalahan API Gemini: ".

Definition unknown_error_message : jsstring :=
  str "Terjadi kesalahan yang tidak diketahui saat memanggil API Gemini.".

Definition invalid_json_message : jsstring :=
  str "Respons JSON tidak valid dari API, atau data terstruktur hilang.".

(** ** The response schema *)

Definition leaf (t : SchemaType) (d : jsstring) : Schema :=
  mkSchema t (Some d) [] None [].

Definition activitySchema : Schema :=
  mkSchema OBJECT None
    [ (str "time",
       leaf STRING (str "Time of the activity (e.g., " ++ dquote
                      ++ str "9:00 AM" ++ dquote ++ str ")."));
      (str "description", leaf STRING (str "Description of the activity.")) ]
    None
    [str "time"; str "description"].

Definition daySchema : Schema :=
  mkSchema OBJECT None
    [ (str "day", leaf NUMBER (str "Day number."));
      (str "theme", leaf STRING (str "Theme for the day."));
      (str "activities", mkSchema ARRAY None [] (Some activitySchema) []) ]
    None
    [str "day"; str "theme"; str "activities"].

Definition itinerarySchema : Schema :=
  mkSchema OBJECT None
    [ (str "destination", leaf STRING (str "The travel destination."));
      (str "duration", leaf NUMBER (str "Duration of the trip in days."));
      (str "overview", leaf STRING (str "A brief overview of the trip."));
      (str "itinerary", mkSchema ARRAY None [] (Some daySchema) []);
      (str "packingSuggestions",
       mkSchema ARRAY (Some (str "Suggestions for what to pack.")) []
         (Some (mkSchema STRING None [] None [])) []);
      (str "notes",
       leaf STRING (str "Any additional important notes for the trip."));
      (str "budgetSummary",
       leaf STRING (str "A summary or analysis of the trip budget.")) ]
    None
    [str "destination"; str "duration"; str "overview"; str "itinerary";
     str "packingSuggestions"; str "notes"; str "budgetSummary"].

Section WithHost.

Variable host : Host.

(** A coordinate inside a template literal. *)
Definition coordinate_toString (c : coordinate) : jsstring :=
  match c with
  | Absent => str "undefined"
  | Null => str "null"
  | Coord x => Number_toString host x
  end.

(** ** Mode selection and request *)

(** [if (latitude && longitude)] *)
Definition useMapsGrounding (preferences : TravelPreferences) : bool :=
  coordinate_truthy (latitude preferences)
  && coordinate_truthy (longitude preferences).

Definition basePrompt (preferences : TravelPreferences) : jsstring :=
  let n := Number_toString host in
  let p := preferences in
  str "Buat itinerary perjalanan yang detail dan kreatif untuk perjalanan "
  ++ n (duration p) ++ str " hari ke " ++ destination p ++ str "." ++ nl
  ++ str "  Wisatawan tertarik pada " ++ interests p
  ++ str ". Mereka memiliki anggaran sebesar " ++ n (budget p) ++ str " "
  ++ currency p ++ str "." ++ nl
  ++ str "  " ++ nl
  ++ str "  Harap sertakan:" ++ nl
  ++ str "  - Ikhtisar perjalanan." ++ nl
  ++ str "  - Rincian rencana harian dengan tema dan aktivitas spesifik (dengan waktu yang disarankan)." ++ nl
  ++ str "  - Saran barang bawaan yang praktis." ++ nl
  ++ str "  - Catatan penting untuk perjalanan." ++ nl
  ++ str "  - Ringkasan atau analisis tentang bagaimana anggaran "
  ++ n (budget p) ++ str " " ++ currency p
  ++ str " dapat memengaruhi perencanaan perjalanan atau apa yang bisa didapatkan." ++ nl
  ++ str "  " ++ nl
  ++ str "  Buat itinerary dalam format JSON, dan semua teks dalam properti JSON harus dalam Bahasa Indonesia." ++ nl
  ++ str "  Jika relevan, sertakan saran yang berfokus pada Indonesia untuk rekomendasi umum dan penelusuran.".

Definition prompt (preferences : TravelPreferences) : jsstring :=
  if useMapsGrounding preferences
  then basePrompt preferences
       ++ str " Lokasi pengguna saat ini kira-kira lintang "
       ++ coordinate_toString (latitude preferences) ++ str ", bujur "
       ++ coordinate_toString (longitude preferences) ++ str "."
  else basePrompt preferences.

Definition requestTools (preferences : TravelPreferences) : list Tool :=
  (if useMapsGrounding preferences then [googleMaps] else [])
  ++ [googleSearch].

(** [Object.keys(toolConfig).length > 0 ? toolConfig : undefined] *)
Definition requestToolConfig (preferences : TravelPreferences)
  : option ToolConfig :=
  if useMapsGrounding preferences
  then Some {| retrievalConfig_latLng :=
                 {| latLng_latitude := latitude preferences;
                    latLng_longitude := longitude preferences |} |}
  else None.

Definition modelToUse (preferences : TravelPreferences) : jsstring :=
  if useMapsGrounding preferences
  then str "gemini-2.5-flash"
  else str "gemini-3-pro-preview".

Definition generateContentConfig (preferences : TravelPreferences)
  : GenerateContentConfig :=
  {| temperature := number_of_decimal false 9 (-1);
     topP := number_of_decimal false 95 (-2);
     topK := number_of_decimal false 64 0;
     tools := requestTools preferences;
     toolConfig := requestToolConfig preferences;
     responseMimeType :=
       if useMapsGrounding preferences then None
       else Some (str "application/json");
     responseSchema :=
       if useMapsGrounding preferences then None
       else Some itinerarySchema |}.

Definition request (preferences : TravelPreferences) : Request :=
  {| model := modelToUse preferences;
     contents := prompt preferences;
     config := generateContentConfig preferences |}.

(** ** Recovery of the reply *)

(** The object built when the reply cannot be read as an itinerary. *)
Definition fallbackItinerary (preferences : TravelPreferences)
  (rawResponseText : jsstring) : value :=
  JObject
    [ (str "destination", JString (destination preferences));
      (str "duration", JNumber (duration preferences));
      (str "overview", JString rawResponseText);
      (str "itinerary", JArray []);
      (str "packingSuggestions", JArray []);
      (str "notes", JString notes_text);
      (str "budgetSummary",
       JString (str "Anggaran: " ++ Number_toString host (budget preferences)
                ++ str " " ++ currency preferences ++ str ".")) ].

Definition fallbackResult (preferences : TravelPreferences)
  (rawResponseText : jsstring) : ItineraryResult :=
  {| itineraryData := fallbackItinerary preferences rawResponseText;
     sourceUrls := [] |}.

(** [!parsedItinerary || !parsedItinerary.destination
     || !Array.isArray(parsedItinerary.itinerary)] *)
Definition invalidStructure (parsedItinerary : value) : bool :=
  negb (truthy parsedItinerary)
  || negb (truthy_opt (get_property parsedItinerary (str "destination")))
  || negb (isArray (get_property parsedItinerary (str "itinerary"))).

(** [reviewSource.title || 'Review Link'] *)
Definition snippetCitation (snippet : ReviewSnippet) : Citation :=
  {| uri := snippet_uri snippet;
     title := match snippet_title snippet with
              | Some (c :: t) => Some (c :: t)
              | Some [] | None => Some review_link
              end |}.

(** One turn of the loop over the grounding chunks. *)
Definition pushChunk (sourceUrls : list Citation) (chunk : GroundingChunk)
  : list Citation :=
  match web chunk with
  | Some w => sourceUrls ++ [{| uri := web_uri w; title := web_title w |}]
  | None =>
      match maps chunk with
      | Some m =>
          let pushed :=
            sourceUrls ++ [{| uri := maps_uri m; title := maps_title m |}] in
          match maps_reviewSnippets m with
          | Some snippets =>
              fold_left (fun acc snippet => acc ++ [snippetCitation snippet])
                snippets pushed
          | None => pushed
          end
      | None => sourceUrls
      end
  end.

(** [response.candidates?.[0]?.groundingMetadata?.groundingChunks] *)
Definition responseChunks (response : Response)
  : option (list GroundingChunk) :=
  match candidates response with
  | Some (first :: _) => groundingChunks first
  | Some [] | None => None
  end.

Definition collectSourceUrls (response : Response) : list Citation :=
  match responseChunks response with
  | Some chunks => fold_left pushChunk chunks []
  | None => []
  end.

(** The [try] block after the call has settled: what it returns, or what
    it throws into the [catch] block. Logging is left out. *)
Definition tryBlock (preferences : TravelPreferences) (outcome : Outcome)
  : ItineraryResult + Exception :=
  match outcome with
  | Rejected reason => inr reason
  | Fulfilled response =>
      match text response with
      | None => inr (Error (undefined_trim_message host))
      | Some t =>
          let rawResponseText := trim t in
          match extractJsonFromString rawResponseText with
          | None | Some [] => inl (fallbackResult preferences rawResponseText)
          | Some cleanedJsonString =>
              if useMapsGrounding preferences then
                match JSON_parse cleanedJsonString with
                | Some parsedItinerary =>
                    if invalidStructure parsedItinerary
                    then inl (fallbackResult preferences rawResponseText)
                    else inl {| itineraryData := parsedItinerary;
                                sourceUrls := collectSourceUrls response |}
                | None => inl (fallbackResult preferences rawResponseText)
                end
              else
                match JSON_parse cleanedJsonString with
                | Some parsedItinerary =>
                    if invalidStructure parsedItinerary
                    then inr (Error invalid_json_message)
                    else inl {| itineraryData := parsedItinerary;
                                sourceUrls := collectSourceUrls response |}
                | None => inr (Error invalid_json_message)
                end
          end
      end
  end.

(** The [catch] block: it always throws. The signature is looked for in
    [error.message] before [error instanceof Error] is tested, so a value
    without a message never reaches the last two branches: the
    [TypeError] raised by the first test leaves the block. *)
Definition catchBlock (error : Exception) : Exception :=
  match error with
  | Messageless typeError => Error typeError
  | WithMessage instanceofError message =>
      if includes message entity_not_found
      then Error api_key_message
      else if instanceofError
      then Error (api_error_prefix ++ message)
      else Error unknown_error_message
  end.

(** The client is constructed before the [try] block; its construction is
    taken to succeed. *)
Definition generateItinerary (preferences : TravelPreferences)
  : Async ItineraryResult :=
  Await (request preferences)
    (fun outcome =>
       match tryBlock preferences outcome with
       | inl result => Resolve result
       | inr error => Reject (catchBlock error)
       end).

End WithHost.

End Pipeline.
Import Pipeline.

(* ================================================================== *)
(** * Sample data for the examples *)
(* ================================================================== *)

Module Samples.

(** The Number-to-String conversion of the sample host: the real one on
    whole numbers below 2^53; any other finite Number prints as its
    integer part, a text that no example reads. *)
Definition whole_toString (x : number) : jsstring :=
  match x with
  | S754_zero _ => str "0"
  | S754_finite s m e =>
      (if s then str "-" else [])
      ++ str (DecimalString.NilZero.string_of_uint
                (N.to_uint (Z.to_N (Z.shiftl (Zpos m) e))))
  | S754_infinity s => (if s then str "-" else []) ++ str "Infinity"
  | S754_nan => str "NaN"
  end.

Definition sample_host : Host :=
  {| Number_toString := whole_toString;
     undefined_trim_message :=
       str "Cannot read properties of undefined (reading 'trim')" |}.

Definition whole (n : N) : number := number_of_decimal false n 0.

Definition kyoto : TravelPreferences :=
  {| destination := str "Kyoto";
     duration := whole 3;
     interests := str "food";
     budget := whole 500;
     currency := str "USD";
     latitude := Absent;
     longitude := Absent |}.

(** Kyoto, asked from 35.0116 N, 135.7681 E. *)
Definition kyoto_located : TravelPreferences :=
  {| destination := str "Kyoto";
     duration := whole 3;
     interests := str "food";
     budget := whole 500;
     currency := str "USD";
     latitude := Coord (number_of_decimal false 350116 (-4));
     longitude := Coord (number_of_decimal false 1357681 (-4)) |}.

(** Asked from the equator: 0 N, 109.3333 E (Pontianak). *)
Definition kyoto_from_equator : TravelPreferences :=
  {| destination := str "Kyoto";
     duration := whole 3;
     interests := str "food";
     budget := whole 500;
     currency := str "USD";
     latitude := Coord (S754_zero false);
     longitude := Coord (number_of_decimal false 1093333 (-4)) |}.

Definition reply (t : jsstring) (chunks : option (list GroundingChunk))
  : Response :=
  {| text := Some t;
     candidates := Some [{| groundingChunks := chunks |}] |}.

(** A client whose every call settles the same way. *)
Definition always (o : Outcome) : ModelClient := fun _ _ => o.

Definition web_entry (u t : string) : GroundingChunk :=
  {| web := Some {| web_uri := Some (str u); web_title := Some (str t) |};
     maps := None |}.

Definition temple_entry : GroundingChunk :=
  {| web := None;
     maps := Some
       {| maps_uri := Some (str "https://maps.example/kinkakuji");
          maps_title := Some (str "Kinkaku-ji");
          maps_reviewSnippets := Some
            [ {| snippet_uri := Some (str "https://maps.example/review/1");
                 snippet_title := Some (str "Golden at dusk") |};
              {| snippet_uri := Some (str "https://maps.example/review/2");
                 snippet_title := None |} ] |} |}.

End Samples.
Import Samples.

(* ================================================================== *)
(** * Vocabulary of the properties *)
(* ================================================================== *)

Module Statements.

(** [v.k] for an ASCII property name. *)
Definition field (v : value) (k : string) : option value :=
  get_property v (str k).

Definition number_is_zero (x : number) : bool :=
  match x with
  | S754_zero _ => true
  | _ => false
  end.

Definition missing (c : coordinate) : Prop := c = Absent \/ c = Null.

(** Grounded mode: the location tool precedes the search tool, and neither
    a response schema nor a response MIME type is requested. *)
Definition groundedRequest (host : Host) (p : TravelPreferences) : Prop :=
  useMapsGrounding p = true
  /\ tools (config (request host p)) = [googleMaps; googleSearch]
  /\ responseSchema (config (request host p)) = None
  /\ responseMimeType (config (request host p)) = None.

(** Structured mode: the search tool alone, and the itinerary schema. *)
Definition structuredRequest (host : Host) (p : TravelPreferences) : Prop :=
  useMapsGrounding p = false
  /\ tools (config (request host p)) = [googleSearch]
  /\ responseSchema (config (request host p)) = Some itinerarySchema
  /\ responseMimeType (config (request host p))
     = Some (str "application/json").

(** The extracted text does not parse, or what it parses to is refused. *)
Definition structuralMismatch (cleanedJsonString : jsstring) : Prop :=
  match JSON_parse cleanedJsonString with
  | Some parsedItinerary => invalidStructure parsedItinerary = true
  | None => True
  end.

(** The fields of a fallback itinerary whose overview is [overview]. *)
Definition isFallback (host : Host) (p : TravelPreferences)
  (overview : jsstring) (data : value) : Prop :=
  field data "destination" = Some (JString (destination p))
  /\ field data "duration" = Some (JNumber (duration p))
  /\ field data "overview" = Some (JString overview)
  /\ field data "itinerary" = Some (JArray [])
  /\ field data "packingSuggestions" = Some (JArray [])
  /\ field data "notes" = Some (JString notes_text)
  /\ field data "budgetSummary"
     = Some (JString (str "Anggaran: " ++ Number_toString host (budget p)
                      ++ str " " ++ currency p ++ str ".")).

(** The message carried by the error for a failure of the Model Client
    other than the credential one. *)
Definition genericMessage (instanceofError : bool) (message : jsstring)
  : jsstring :=
  if instanceofError
  then api_error_prefix ++ message
  else unknown_error_message.

(** The citations one grounding entry stands for. *)
Definition snippetLabel (snippet : ReviewSnippet) : jsstring :=
  match snippet_title snippet with
  | Some (c :: t) => c :: t
  | Some [] | None => review_link
  end.

Definition entryCitations (chunk : GroundingChunk) : list Citation :=
  match web chunk, maps chunk with
  | Some w, _ => [{| uri := web_uri w; title := web_title w |}]
  | None, Some m =>
      {| uri := maps_uri m; title := maps_title m |}
      :: map (fun s => {| uri := snippet_uri s;
                          title := Some (snippetLabel s) |})
           (match maps_reviewSnippets m with
            | Some snippets => snippets
            | None => []
            end)
  | None, None => []
  end.

(** A reply made of prose, a fenced block with a language tag around a
    document, and more prose. *)
Definition fencedReply (before tag document after : jsstring) : jsstring :=
  before ++ str "```" ++ tag ++ nl ++ document ++ nl ++ str "```" ++ after.

(** The opening delimiters of an object and of an array. *)
Definition opener (x : char16) : Prop := x = open_brace \/ x = open_bracket.

Definition closer (o : char16) : char16 :=
  if char_eqb o open_brace then close_brace else close_bracket.

(** No run of three backticks starts anywhere in [s]. *)
Fixpoint fence_free (s : jsstring) : bool :=
  match s with
  | [] => true
  | _ :: s' => negb (starts_with (str "```") s) && fence_free s'
  end.

Definition lacks (c : char16) (s : jsstring) : Prop :=
  Forall (fun x => x <> c) s.

End Statements.
Import Statements.

(* ================================================================== *)
(** * The input form: [handleSubmit] of [UserInputForm] *)
(* ================================================================== *)

Module Form.

(** The literal [0]. *)
Definition zero : number := S754_zero false.

(** [x > y] and [x >= y] on Numbers: false as soon as one side is NaN. *)
Definition number_gt (x y : number) : bool := SFltb y x.
Definition number_ge (x y : number) : bool := SFleb y x.

(** [ToBoolean] on a string. *)
Definition string_truthy (s : jsstring) : bool :=
  match s with
  | [] => false
  | _ :: _ => true
  end.

(** The state of the fields that [handleSubmit] reads. The two numeric
    fields hold what [parseInt] made of the input, possibly NaN. *)
Record FormState : Type := {
  form_destination : jsstring;
  form_duration : number;
  form_interests : jsstring;
  form_budget : number;
  form_currency : jsstring
}.

Inductive FormOutcome : Type :=
  | Submitted (preferences : TravelPreferences)
  | Alerted (text : jsstring).

Definition incomplete_text : jsstring :=
  str "Harap lengkapi semua bidang yang wajib diisi.".

(** [destination && duration > 0 && interests && budget >= 0 && currency] *)
Definition complete (s : FormState) : bool :=
  string_truthy (form_destination s)
  && number_gt (form_duration s) zero
  && string_truthy (form_interests s)
  && number_ge (form_budget s) zero
  && string_truthy (form_currency s).

(** The preferences handed to [onSubmit] carry no coordinates. *)
Definition handleSubmit (s : FormState) : FormOutcome :=
  if complete s
  then Submitted {| destination := form_destination s;
                    duration := form_duration s;
                    interests := form_interests s;
                    budget := form_budget s;
                    currency := form_currency s;
                    latitude := Absent;
                    longitude := Absent |}
  else Alerted incomplete_text.

End Form.

(* ================================================================== *)
(** * The application: geolocation and [handleSubmit] of [App] *)
(* ================================================================== *)

Module App.

Record AppState : Type := {
  itineraryResult : option ItineraryResult;
  isLoading : bool;
  error : option jsstring;
  currentLatitude : option number;
  currentLongitude : option number;
  isGettingLocation : bool;
  locationError : option jsstring;
  geolocationEnabled : bool;
  initialUserBudget : number;
  initialUserCurrency : jsstring
}.

(** The state of the first render. *)
Definition initialState : AppState :=
  {| itineraryResult := None;
     isLoading := false;
     error := None;
     currentLatitude := None;
     currentLongitude := None;
     isGettingLocation := false;
     locationError := None;
     geolocationEnabled := false;
     initialUserBudget := Form.zero;
     initialUserCurrency := [] |}.

(** What the four geolocation setters leave of a state. *)
Definition withLocation (s : AppState) (lat lon : option number)
  (getting : bool) (err : option jsstring) : AppState :=
  {| itineraryResult := itineraryResult s;
     isLoading := isLoading s;
     error := error s;
     currentLatitude := lat;
     currentLongitude := lon;
     isGettingLocation := getting;
     locationError := err;
     geolocationEnabled := geolocationEnabled s;
     initialUserBudget := initialUserBudget s;
     initialUserCurrency := initialUserCurrency s |}.

Definition unsupported_text : jsstring :=
  str "Geolocation tidak didukung oleh browser Anda.".

(** [requestGeolocation], up to the call of [getCurrentPosition];
    [supported] is the truthiness of [navigator.geolocation]. *)
Definition requestGeolocation (supported : bool) (s : AppState) : AppState :=
  if negb (geolocationEnabled s)
  then withLocation s None None false None
  else if supported
  then withLocation s (currentLatitude s) (currentLongitude s) true None
  else withLocation s None None false (Some unsupported_text).

(** The success callback of [getCurrentPosition]. *)
Definition onPosition (latitude longitude : number) (s : AppState)
  : AppState :=
  withLocation s (Some latitude) (Some longitude) false None.

(** The [switch] on [geoError.code]: PERMISSION_DENIED is 1,
    POSITION_UNAVAILABLE is 2 and TIMEOUT is 3. *)
Definition geoErrorMessage (code : N) : jsstring :=
  if (code =? 1)%N
  then str "Akses lokasi ditolak. Harap aktifkan layanan lokasi di pengaturan browser Anda."
  else if (code =? 2)%N then str "Informasi lokasi tidak tersedia."
  else if (code =? 3)%N
  then str "Permintaan untuk mendapatkan lokasi pengguna telah berakhir."
  else str "Tidak dapat mengambil lokasi Anda.".

(** The error callback of [getCurrentPosition]. *)
Definition onGeoError (code : N) (s : AppState) : AppState :=
  withLocation s None None false (Some (geoErrorMessage code)).

(** [setGeolocationEnabled] from the form's toggle, and the effect that
    re-runs [requestGeolocation] when the flag has changed. *)
Definition onGeolocationToggle (enabled supported : bool) (s : AppState)
  : AppState :=
  if Bool.eqb enabled (geolocationEnabled s) then s
  else
    requestGeolocation supported
      {| itineraryResult := itineraryResult s;
         isLoading := isLoading s;
         error := error s;
         currentLatitude := currentLatitude s;
         currentLongitude := currentLongitude s;
         isGettingLocation := isGettingLocation s;
         locationError := locationError s;
         geolocationEnabled := enabled;
         initialUserBudget := initialUserBudget s;
         initialUserCurrency := initialUserCurrency s |}.

(** [ToBoolean] on [currentLatitude], [currentLongitude] and
    [locationError]. *)
Definition position_truthy (c : option number) : bool :=
  match c with
  | Some x => number_truthy x
  | None => false
  end.

Definition text_truthy (t : option jsstring) : bool :=
  match t with
  | Some s => Form.string_truthy s
  | None => false
  end.

(** [geolocationEnabled && currentLatitude && currentLongitude
     && !locationError] *)
Definition locationUsable (s : AppState) : bool :=
  geolocationEnabled s
  && position_truthy (currentLatitude s)
  && position_truthy (currentLongitude s)
  && negb (text_truthy (locationError s)).

Definition coordinateOf (c : option number) : coordinate :=
  match c with
  | Some x => Coord x
  | None => Null
  end.

(** [{ ...preferences }], with the coordinates of the state written over
    it when the location is usable. *)
Definition fullPreferences (s : AppState) (preferences : TravelPreferences)
  : TravelPreferences :=
  if locationUsable s
  then {| destination := destination preferences;
          duration := duration preferences;
          interests := interests preferences;
          budget := budget preferences;
          currency := currency preferences;
          latitude := coordinateOf (currentLatitude s);
          longitude := coordinateOf (currentLongitude s) |}
  else preferences.

(** The setters called before the [try] block. *)
Definition submitBegin (s : AppState) (preferences : TravelPreferences)
  : AppState :=
  {| itineraryResult := None;
     isLoading := true;
     error := None;
     currentLatitude := currentLatitude s;
     currentLongitude := currentLongitude s;
     isGettingLocation := isGettingLocation s;
     locationError := locationError s;
     geolocationEnabled := geolocationEnabled s;
     initialUserBudget := budget preferences;
     initialUserCurrency := currency preferences |}.

(** [e.message]; a value without a message gives [undefined]. *)
Definition exceptionMessage (e : Exception) : option jsstring :=
  match e with
  | WithMessage _ m => Some m
  | Messageless _ => None
  end.

(** [setItineraryResult(result)] or [setError(e.message)], and then
    [setIsLoading(false)] of the [finally] block. *)
Definition submitSettle (s : AppState) (o : Settled ItineraryResult)
  : AppState :=
  {| itineraryResult := match o with
                        | Returned r => Some r
                        | Thrown _ => itineraryResult s
                        end;
     isLoading := false;
     error := match o with
              | Returned _ => error s
              | Thrown e => exceptionMessage e
              end;
     currentLatitude := currentLatitude s;
     currentLongitude := currentLongitude s;
     isGettingLocation := isGettingLocation s;
     locationError := locationError s;
     geolocationEnabled := geolocationEnabled s;
     initialUserBudget := initialUserBudget s;
     initialUserCurrency := initialUserCurrency s |}.

(** [handleSubmit] run to its end, with no other event in between; the
    second component counts the calls of the Model Client. *)
Definition handleSubmit (host : Host) (client : ModelClient) (s : AppState)
  (preferences : TravelPreferences) : AppState * nat :=
  let '(o, calls) :=
    run client 0 (generateItinerary host (fullPreferences s preferences)) in
  (submitSettle (submitBegin s preferences) o, calls).

(** What can happen to the application. *)
Inductive Event : Type :=
  | Toggle (enabled supported : bool)
  | Position (latitude longitude : number)
  | GeoError (code : N)
  | Submit (client : ModelClient) (preferences : TravelPreferences).

Definition step (host : Host) (s : AppState) (e : Event) : AppState :=
  match e with
  | Toggle enabled supported => onGeolocationToggle enabled supported s
  | Position latitude longitude => onPosition latitude longitude s
  | GeoError code => onGeoError code s
  | Submit client preferences => fst (handleSubmit host client s preferences)
  end.

(** The state after a sequence of events, from the first render on. *)
Definition after (host : Host) (events : list Event) : AppState :=
  fold_left (step host) events initialState.

(** What the application keeps true: a location error and coordinates
    never stand together, a result and an error never stand together,
    and nothing is loading once an event has been handled. *)
Definition consistent (s : AppState) : Prop :=
  (text_truthy (locationError s) = true ->
   currentLatitude s = None /\ currentLongitude s = None)
  /\ (itineraryResult s = None \/ error s = None)
  /\ isLoading s = false.

End App.

(* ================================================================== *)
(** * The source links of [ItineraryDisplay] *)
(* ================================================================== *)

Module Display.

(** [source.title || source.uri], the text of a source link. *)
Definition sourceLabel (source : Citation) : option jsstring :=
  match title source with
  | Some (c :: t) => Some (c :: t)
  | Some [] | None => uri source
  end.

End Display.

(* ================================================================== *)
(** * The earlier [extractJsonFromString] *)
(* ================================================================== *)

Module Legacy.

(** The match of [/```json|```javascript|```/] at the head of [s]: the
    alternatives are tried in order. *)
Definition match_fence (s : jsstring) : option nat :=
  if starts_with (str "```json") s then Some 7
  else if starts_with (str "```javascript") s then Some 13
  else if starts_with (str "```") s then Some 3
  else None.

Fixpoint remove_fences_from (s : jsstring) (skip : nat) : jsstring :=
  match s with
  | [] => []
  | c :: s' =>
      match skip with
      | S k => remove_fences_from s' k
      | O =>
          match match_fence s with
          | Some n => remove_fences_from s' (n - 1)
          | None => c :: remove_fences_from s' 0
          end
      end
  end.

Definition cleanedInput (input : jsstring) : jsstring :=
  trim (remove_fences_from input 0).

(** The text from the first [o] to the last [c], when both are found and
    the last [c] comes after the first [o]. *)
Definition between (s : jsstring) (o c : char16) : option jsstring :=
  let first := indexOf s [o] in
  let last := lastIndexOf s [c] in
  if negb (first =? -1)%Z && negb (last =? -1)%Z && (first <? last)%Z
  then Some (substring s first (last + 1))
  else None.

Definition parses (s : jsstring) : bool :=
  match JSON_parse s with
  | Some _ => true
  | None => false
  end.

(** The first candidate: braces are tried before brackets. *)
Definition jsonCandidate (input : jsstring) : option jsstring :=
  match between input open_brace close_brace with
  | Some c => Some c
  | None => between input open_bracket close_bracket
  end.

(** The second attempt, on the input without fences: the braces, and
    then the brackets. *)
Definition retry (input : jsstring) : option jsstring :=
  let cleaned := cleanedInput input in
  match between cleaned open_brace close_brace with
  | Some finalCandidate =>
      if parses finalCandidate then Some finalCandidate
      else
        match between cleaned open_bracket close_bracket with
        | Some finalCandidate' =>
            if parses finalCandidate' then Some finalCandidate' else None
        | None => None
        end
  | None =>
      match between cleaned open_bracket close_bracket with
      | Some finalCandidate =>
          if parses finalCandidate then Some finalCandidate else None
      | None => None
      end
  end.

Definition extractJsonFromString (input : jsstring) : option jsstring :=
  match jsonCandidate input with
  | None | Some [] => None
  | Some candidate =>
      if parses candidate then Some candidate else retry input
  end.

End Legacy.

(* ================================================================== *)
(** * More vocabulary of the properties *)
(* ================================================================== *)

Module MoreStatements.

(** An object or array text: from an opening delimiter to its closer. *)
Definition delimited (c : jsstring) : Prop :=
  exists o p, opener o /\ c = o :: p ++ [closer o].

(** The messages an error thrown by the pipeline can carry. *)
Definition pipelineMessage (host : Host) (m : jsstring) : Prop :=
  m = api_key_message
  \/ m = unknown_error_message
  \/ exists cause, m = api_error_prefix ++ cause.

(** A form whose fields are all filled in. *)
Definition sample_form : Form.FormState :=
  {| Form.form_destination := str "Kyoto";
     Form.form_duration := whole 3;
     Form.form_interests := str "food";
     Form.form_budget := whole 500;
     Form.form_currency := str "USD" |}.

(** The application after the location was switched on and found. *)
Definition located_state : App.AppState :=
  App.after sample_host
    [App.Toggle true true;
     App.Position (number_of_decimal false 350116 (-4))
       (number_of_decimal false 1357681 (-4))].

Definition kyoto_reply : jsstring :=
  jq "Tentu! ```json {'destination':'Kyoto','itinerary':[]} ``` Selamat jalan.".

End MoreStatements.
Import MoreStatements.

(* ================================================================== *)
(** * Facts about strings *)
(* ================================================================== *)

Module StringFacts.

Lemma char_eqb_eq (a b : char16) : char_eqb a b = true <-> a = b.
Proof. apply N.eqb_eq. Qed.

Lemma char_eqb_neq (a b : char16) : char_eqb a b = false <-> a <> b.
Proof. apply N.eqb_neq. Qed.

Lemma starts_with_single (c x : char16) (s : jsstring) :
  starts_with [c] (x :: s) = char_eqb c x.
Proof. simpl. apply andb_true_r. Qed.

Lemma starts_with_length (pat s : jsstring) :
  starts_with pat s = true -> length pat <= length s.
Proof.
  revert s. induction pat as [| p pat IH]; intros [| c s]; simpl;
    try lia; try discriminate.
  intros H. apply andb_prop in H as [_ H]. apply IH in H. lia.
Qed.

(** A pattern that matches across the end of [d] consumes all of [d]. *)
Lemma starts_with_app (pat d r : jsstring) :
  starts_with pat (d ++ r) = true ->
  starts_with pat d = true \/ Forall (fun x => In x pat) d.
Proof.
  revert d. induction pat as [| p pat IH]; intros d H; [now left |].
  destruct d as [| x d]; [now right |].
  simpl in H. apply andb_prop in H as [E H].
  apply char_eqb_eq in E. subst x.
  destruct (IH _ H) as [S | F].
  - left. simpl. rewrite S. unfold char_eqb. now rewrite N.eqb_refl.
  - right. constructor; [now left |].
    eapply Forall_impl; [| exact F]. intros a Ha. now right.
Qed.

Lemma starts_with_prefix (pat d r : jsstring) :
  starts_with pat d = true -> starts_with pat (d ++ r) = true.
Proof.
  revert d. induction pat as [| p pat IH]; intros [| x d]; simpl; auto;
    try discriminate.
  intros H. apply andb_prop in H as [E H]. rewrite E. simpl. auto.
Qed.

(** A code unit outside the pattern stops every match. *)
Lemma starts_with_stop (pat a r : jsstring) (x : char16) :
  ~ In x pat ->
  starts_with pat (a ++ x :: r) = starts_with pat a.
Proof.
  revert a. induction pat as [| p pat IH]; intros a N; [reflexivity |].
  destruct a as [| c a]; simpl.
  - replace (char_eqb p x) with false; [reflexivity |].
    symmetry. apply char_eqb_neq. intros ->. apply N. now left.
  - rewrite IH; [reflexivity |]. intros I. apply N. now right.
Qed.

(** ** [indexOf] of a single code unit *)

Lemma index_from_skip (c : char16) (a r : jsstring) (i : Z) :
  lacks c a ->
  index_from [c] (a ++ r) i = index_from [c] r (i + Z.of_nat (length a)).
Proof.
  revert i. induction a as [| x a IH]; intros i L.
  - simpl. f_equal. lia.
  - inversion L as [| ? ? Hx La]; subst.
    cbn [app index_from]. rewrite starts_with_single.
    replace (char_eqb c x) with false
      by (symmetry; apply char_eqb_neq; congruence).
    rewrite IH by assumption. f_equal. cbn [length]. lia.
Qed.

Lemma index_from_head (c : char16) (r : jsstring) (i : Z) :
  index_from [c] (c :: r) i = i.
Proof.
  cbn [index_from]. rewrite starts_with_single. unfold char_eqb.
  now rewrite N.eqb_refl.
Qed.

Lemma index_from_range (c : char16) (s : jsstring) (i : Z) :
  index_from [c] s i = (-1)%Z
  \/ (i <= index_from [c] s i < i + Z.of_nat (length s))%Z.
Proof.
  revert i. induction s as [| x s IH]; intros i; [now left |].
  cbn [index_from length]. rewrite starts_with_single.
  destruct (char_eqb c x).
  - right. lia.
  - destruct (IH (i + 1)%Z) as [E | R]; [now left | right; lia].
Qed.

Lemma index_from_nth (c : char16) (s : jsstring) (i : Z) :
  index_from [c] s i <> (-1)%Z ->
  nth_error s (Z.to_nat (index_from [c] s i - i)) = Some c.
Proof.
  revert i. induction s as [| x s IH]; intros i; [simpl; congruence |].
  cbn [index_from]. rewrite starts_with_single.
  destruct (char_eqb c x) eqn:E.
  - intros _. apply char_eqb_eq in E. subst. now rewrite Z.sub_diag.
  - intros H. specialize (IH _ H).
    destruct (index_from_range c s (i + 1)) as [R | R]; [congruence |].
    replace (Z.to_nat (index_from [c] s (i + 1) - i))
      with (S (Z.to_nat (index_from [c] s (i + 1) - (i + 1)))) by lia.
    exact IH.
Qed.

(** ** [lastIndexOf] of a single code unit *)

Lemma last_index_from_absent (c : char16) (s : jsstring) (i : Z) :
  lacks c s -> last_index_from [c] s i = (-1)%Z.
Proof.
  revert i. induction s as [| x s IH]; intros i L; [reflexivity |].
  inversion L as [| ? ? Hx Ls]; subst.
  cbn [last_index_from]. rewrite IH by assumption. cbn.
  rewrite andb_true_r.
  replace (char_eqb c x) with false
    by (symmetry; apply char_eqb_neq; congruence).
  reflexivity.
Qed.

Lemma last_index_from_range (c : char16) (s : jsstring) (i : Z) :
  (0 <= i)%Z ->
  last_index_from [c] s i = (-1)%Z
  \/ (i <= last_index_from [c] s i < i + Z.of_nat (length s))%Z.
Proof.
  revert i. induction s as [| x s IH]; intros i Hi; [now left |].
  cbn [last_index_from length].
  destruct (IH (i + 1)%Z) as [E | R]; [lia | |].
  - rewrite E. cbn. destruct (char_eqb c x && true); [right; lia | now left].
  - destruct (Z.eqb_spec (last_index_from [c] s (i + 1)) (-1)); right; lia.
Qed.

Lemma last_index_from_app (c : char16) (a b : jsstring) (i : Z) :
  (0 <= i)%Z -> lacks c b ->
  last_index_from [c] (a ++ c :: b) i = (i + Z.of_nat (length a))%Z.
Proof.
  revert i. induction a as [| x a IH]; intros i Hi L.
  - cbn [app last_index_from length].
    rewrite last_index_from_absent by assumption.
    rewrite starts_with_single. unfold char_eqb. rewrite N.eqb_refl.
    cbn. lia.
  - cbn [app last_index_from length]. rewrite IH by (assumption || lia).
    destruct (Z.eqb_spec (i + 1 + Z.of_nat (length a)) (-1)); lia.
Qed.

Lemma last_index_from_nth (c : char16) (s : jsstring) (i : Z) :
  (0 <= i)%Z ->
  last_index_from [c] s i <> (-1)%Z ->
  nth_error s (Z.to_nat (last_index_from [c] s i - i)) = Some c.
Proof.
  revert i. induction s as [| x s IH]; intros i Hi; [simpl; congruence |].
  cbn [last_index_from].
  destruct (Z.eqb_spec (last_index_from [c] s (i + 1)) (-1)) as [E | E].
  - rewrite starts_with_single. destruct (char_eqb c x) eqn:X; [| congruence].
    intros _. apply char_eqb_eq in X. subst. now rewrite Z.sub_diag.
  - intros _. assert (Hi' : (0 <= i + 1)%Z) by lia.
    specialize (IH _ Hi' E).
    destruct (last_index_from_range c s Hi') as [R | R]; [congruence |].
    replace (Z.to_nat (last_index_from [c] s (i + 1) - i))
      with (S (Z.to_nat (last_index_from [c] s (i + 1) - (i + 1)))) by lia.
    exact IH.
Qed.

End StringFacts.
Import StringFacts.

Module TrimFacts.

Lemma trimStart_suffix (s : jsstring) :
  exists w, s = w ++ trimStart s.
Proof.
  induction s as [| c s [w IH]]; [now exists [] |]. simpl.
  destruct (is_space c); [| now exists []].
  exists (c :: w). simpl. now f_equal.
Qed.

Lemma trimEnd_prefix (s : jsstring) :
  exists w, s = trimEnd s ++ w.
Proof.
  induction s as [| c s [w IH]]; [now exists [] |]. simpl.
  destruct (trimEnd s) as [| y t].
  - destruct (is_space c); [now exists (c :: s) |].
    exists w. simpl. now f_equal.
  - exists w. simpl. now f_equal.
Qed.

Lemma trimStart_stop (a r : jsstring) (x : char16) :
  is_space x = false ->
  trimStart (a ++ x :: r) = trimStart a ++ x :: r.
Proof.
  intros X. induction a as [| c a IH]; simpl.
  - now rewrite X.
  - destruct (is_space c); [exact IH | reflexivity].
Qed.

Lemma trimEnd_stop (p b : jsstring) (y : char16) :
  is_space y = false ->
  trimEnd ((p ++ [y]) ++ b) = (p ++ [y]) ++ trimEnd b.
Proof.
  intros Y. induction p as [| c p IH].
  - simpl. destruct (trimEnd b); [now rewrite Y | reflexivity].
  - cbn [app trimEnd]. cbn [app] in IH. rewrite IH.
    destruct p; reflexivity.
Qed.

Lemma lacks_trimStart (c : char16) (s : jsstring) :
  lacks c s -> lacks c (trimStart s).
Proof.
  intros L. destruct (trimStart_suffix s) as [w E].
  unfold lacks in *. rewrite E in L. now apply Forall_app in L.
Qed.

Lemma lacks_trimEnd (c : char16) (s : jsstring) :
  lacks c s -> lacks c (trimEnd s).
Proof.
  intros L. destruct (trimEnd_prefix s) as [w E].
  unfold lacks in *. rewrite E in L. now apply Forall_app in L.
Qed.

(** Trimming around a block that begins and ends with visible code units
    only shortens what surrounds the block. *)
Lemma trim_framed (a p b : jsstring) (x y : char16) :
  is_space x = false -> is_space y = false ->
  trim (a ++ (x :: p ++ [y]) ++ b)
  = trimStart a ++ (x :: p ++ [y]) ++ trimEnd b.
Proof.
  intros X Y. unfold trim.
  replace (a ++ (x :: p ++ [y]) ++ b) with (a ++ x :: (p ++ [y]) ++ b)
    by reflexivity.
  rewrite trimStart_stop by assumption.
  replace (trimStart a ++ x :: (p ++ [y]) ++ b)
    with (((trimStart a ++ x :: p) ++ [y]) ++ b)
    by (rewrite <- !app_assoc; reflexivity).
  rewrite trimEnd_stop by assumption.
  rewrite <- !app_assoc. simpl. rewrite <- app_assoc. reflexivity.
Qed.

End TrimFacts.
Import TrimFacts.

Module SliceFacts.

Lemma substring_firstn_skipn (s : jsstring) (i j : nat) :
  i <= j <= length s ->
  substring s (Z.of_nat i) (Z.of_nat j) = firstn (j - i) (skipn i s).
Proof.
  intros H. unfold substring, clamp. cbv zeta.
  replace (Z.max 0 (Z.min (Z.of_nat i) (Z.of_nat (length s))))
    with (Z.of_nat i) by lia.
  replace (Z.max 0 (Z.min (Z.of_nat j) (Z.of_nat (length s))))
    with (Z.of_nat j) by lia.
  replace (Z.min (Z.of_nat i) (Z.of_nat j)) with (Z.of_nat i) by lia.
  replace (Z.max (Z.of_nat i) (Z.of_nat j)) with (Z.of_nat j) by lia.
  f_equal; [lia |]. f_equal. lia.
Qed.

Lemma substring_middle (a d b : jsstring) :
  substring (a ++ d ++ b) (Z.of_nat (length a))
    (Z.of_nat (length a + length d)) = d.
Proof.
  rewrite substring_firstn_skipn by (rewrite !length_app; lia).
  rewrite skipn_app, skipn_all, Nat.sub_diag. simpl.
  replace (length a + length d - length a) with (length d) by lia.
  rewrite firstn_app, firstn_all, Nat.sub_diag. simpl.
  apply app_nil_r.
Qed.

Lemma nth_error_split2 (s : jsstring) (i j : nat) (x y : char16) :
  nth_error s i = Some x -> nth_error s j = Some y -> i < j ->
  exists a p b,
    s = a ++ (x :: p ++ [y]) ++ b
    /\ length a = i /\ length a + length (x :: p ++ [y]) = S j.
Proof.
  intros Hi Hj L.
  apply nth_error_split in Hi as (a & r & -> & La).
  rewrite nth_error_app2 in Hj by lia.
  replace (j - length a) with (S (j - length a - 1)) in Hj by lia.
  simpl in Hj. apply nth_error_split in Hj as (p & b & -> & Lp).
  exists a, p, b. repeat split; auto.
  - simpl. now rewrite <- app_assoc.
  - cbn [length]. rewrite length_app. simpl. lia.
Qed.

End SliceFacts.
Import SliceFacts.

(* ================================================================== *)
(** * Facts about the fence removal *)
(* ================================================================== *)

Module FenceFacts.

Lemma opener_visible (x : char16) : opener x -> is_space x = false.
Proof. intros [-> | ->]; reflexivity. Qed.

Lemma opener_not_in (x : char16) (lit : string) :
  opener x ->
  forallb (fun c => negb (char_eqb c open_brace)
                    && negb (char_eqb c open_bracket)) (str lit) = true ->
  ~ In x (str lit).
Proof.
  intros O F I. rewrite forallb_forall in F. specialize (F _ I).
  destruct O as [-> | ->]; vm_compute in F; discriminate.
Qed.

Lemma leading_spaces_le (s : jsstring) : leading_spaces s <= length s.
Proof.
  induction s as [| c s IH]; simpl; [lia |].
  destruct (is_space c); lia.
Qed.

Lemma leading_spaces_stop (a r : jsstring) (x : char16) :
  is_space x = false -> leading_spaces (a ++ x :: r) = leading_spaces a.
Proof.
  intros X. induction a as [| c a IH]; simpl.
  - now rewrite X.
  - destruct (is_space c); congruence.
Qed.

Lemma fence_tag_length_le (s : jsstring) : fence_tag_length s <= length s.
Proof.
  unfold fence_tag_length.
  destruct (starts_with (str "json") s) eqn:J;
    [apply starts_with_length in J; exact J |].
  destruct (starts_with (str "javascript") s) eqn:S;
    [apply starts_with_length in S; exact S |].
  destruct (starts_with (str "text") s) eqn:T;
    [apply starts_with_length in T; exact T | lia].
Qed.

Lemma fence_tag_length_stop (a r : jsstring) (x : char16) :
  opener x -> fence_tag_length (a ++ x :: r) = fence_tag_length a.
Proof.
  intros O. unfold fence_tag_length.
  rewrite !starts_with_stop; [reflexivity | | |];
    apply opener_not_in; auto.
Qed.

Lemma match_fence_le (s : jsstring) (n : nat) :
  match_fence s = Some n -> 1 <= n <= length s.
Proof.
  unfold match_fence.
  destruct (starts_with (str "```") s) eqn:B; [| discriminate].
  apply starts_with_length in B.
  change (length (str "```")) with 3 in B.
  pose proof (fence_tag_length_le (skipn 3 s)) as T.
  pose proof (leading_spaces_le (skipn (3 + fence_tag_length (skipn 3 s)) s))
    as L.
  rewrite length_skipn in T, L.
  intros E.
  assert (n = 3 + fence_tag_length (skipn 3 s)
              + leading_spaces (skipn (3 + fence_tag_length (skipn 3 s)) s))
    by congruence.
  lia.
Qed.

Lemma match_fence_stop (a r : jsstring) (x : char16) :
  opener x -> match_fence (a ++ x :: r) = match_fence a.
Proof.
  intros O. unfold match_fence.
  rewrite starts_with_stop by (apply opener_not_in; auto).
  destruct (starts_with (str "```") a) eqn:B; [| reflexivity].
  apply starts_with_length in B.
  change (length (str "```")) with 3 in B.
  pose proof (fence_tag_length_le (skipn 3 a)) as T.
  rewrite length_skipn in T.
  rewrite (skipn_app 3).
  replace (3 - length a) with 0 by lia. rewrite skipn_O.
  rewrite fence_tag_length_stop by assumption.
  rewrite skipn_app.
  replace (3 + fence_tag_length (skipn 3 a) - length a) with 0 by lia.
  rewrite skipn_O.
  rewrite leading_spaces_stop by (now apply opener_visible).
  reflexivity.
Qed.

(** An opening delimiter is never part of a match, so the removal works
    on both sides of it independently. *)
Lemma remove_fences_from_stop (a r : jsstring) (x : char16) (k : nat) :
  opener x -> k <= length a ->
  remove_fences_from (a ++ x :: r) k
  = remove_fences_from a k ++ remove_fences_from (x :: r) 0.
Proof.
  intros O. revert k. induction a as [| c a IH]; intros k K.
  - simpl in K. replace k with 0 by lia. reflexivity.
  - cbn [app]. destruct k as [| k].
    + cbn [remove_fences_from].
      change (c :: a ++ x :: r) with ((c :: a) ++ x :: r).
      rewrite match_fence_stop by assumption.
      destruct (match_fence (c :: a)) as [n |] eqn:M.
      * apply match_fence_le in M. simpl in M. apply IH. lia.
      * rewrite IH by lia. reflexivity.
    + cbn [remove_fences_from]. apply IH. simpl in K. lia.
Qed.

Lemma lacks_remove_fences (c : char16) (s : jsstring) (k : nat) :
  lacks c s -> lacks c (remove_fences_from s k).
Proof.
  unfold lacks. revert k. induction s as [| x s IH]; intros k L;
    [constructor |].
  inversion L as [| ? ? Hx Ls]; subst.
  cbn [remove_fences_from]. destruct k; [| now apply IH].
  destruct (match_fence (x :: s)); [now apply IH |].
  constructor; [assumption | now apply IH].
Qed.

(** ** Strings without a fence marker *)

Lemma fence_free_app_r (a s : jsstring) :
  fence_free (a ++ s) = true -> fence_free s = true.
Proof.
  induction a as [| x a IH]; [auto |]. cbn [app fence_free].
  intros H. apply andb_prop in H as [_ H]. auto.
Qed.

Lemma fence_free_app_l (s b : jsstring) :
  fence_free (s ++ b) = true -> fence_free s = true.
Proof.
  induction s as [| x s IH]; [auto |]. cbn [app fence_free].
  intros H. apply andb_prop in H as [N H].
  rewrite (IH H), andb_true_r.
  destruct (starts_with (str "```") (x :: s)) eqn:S; [| reflexivity].
  change (x :: s ++ b) with ((x :: s) ++ b) in N.
  now rewrite (starts_with_prefix _ _ b S) in N.
Qed.

Lemma no_fence_no_match (s : jsstring) :
  starts_with (str "```") s = false -> match_fence s = None.
Proof. intros H. unfold match_fence. now rewrite H. Qed.

(** A fence-free block that does not end with a backtick is kept as it
    is, whatever follows. *)
Lemma remove_fences_keep (p r : jsstring) (y : char16) :
  y <> backtick -> fence_free (p ++ [y]) = true ->
  remove_fences_from ((p ++ [y]) ++ r) 0
  = (p ++ [y]) ++ remove_fences_from r 0.
Proof.
  intros Y. induction p as [| c p IH]; intros F.
  - cbn [app remove_fences_from].
    rewrite no_fence_no_match; [reflexivity |].
    change (str "```") with [backtick; backtick; backtick].
    cbn [starts_with].
    replace (char_eqb backtick y) with false; [reflexivity |].
    symmetry. apply char_eqb_neq. congruence.
  - cbn [app fence_free] in F. apply andb_prop in F as [N F].
    apply negb_true_iff in N.
    cbn [app remove_fences_from].
    rewrite no_fence_no_match; [now rewrite <- IH |].
    destruct (starts_with (str "```") (c :: (p ++ [y]) ++ r)) eqn:S;
      [| reflexivity].
    change (c :: (p ++ [y]) ++ r) with ((c :: p ++ [y]) ++ r) in S.
    apply starts_with_app in S as [S | S]; [congruence |].
    exfalso. apply Forall_forall with (x := y) in S.
    + vm_compute in S.
      repeat (destruct S as [S | S]; [now apply Y |]). exact S.
    + right. apply in_or_app. right. now left.
Qed.

(** ** The result of the removal holds no fence marker *)

Lemma head_kept (s : jsstring) (x : char16) :
  starts_with (str "```") (x :: s) = false ->
  remove_fences_from (x :: s) 0 = x :: remove_fences_from s 0.
Proof.
  intros H. cbn [remove_fences_from]. now rewrite no_fence_no_match.
Qed.

Lemma starts_with_cons (p x : char16) (pat s : jsstring) :
  starts_with (p :: pat) (x :: s) = char_eqb p x && starts_with pat s.
Proof. reflexivity. Qed.

Lemma one_backtick_is_no_fence (s : jsstring) :
  starts_with [backtick] s = false -> starts_with (str "```") s = false.
Proof.
  change (str "```") with [backtick; backtick; backtick].
  destruct s as [| x s]; [reflexivity |].
  rewrite !starts_with_cons. destruct (char_eqb backtick x); cbn; congruence.
Qed.

Lemma two_backticks_are_no_fence (s : jsstring) :
  starts_with [backtick; backtick] s = false ->
  starts_with (str "```") s = false.
Proof.
  change (str "```") with [backtick; backtick; backtick].
  destruct s as [| x s]; [reflexivity |].
  rewrite !starts_with_cons. destruct (char_eqb backtick x); [| auto].
  cbn [andb]. destruct s as [| z s]; [reflexivity |].
  rewrite !starts_with_cons. destruct (char_eqb backtick z); cbn; congruence.
Qed.

Lemma no_backtick_after_removal (s : jsstring) :
  starts_with [backtick] s = false ->
  starts_with [backtick] (remove_fences_from s 0) = false.
Proof.
  destruct s as [| x s]; [reflexivity |]. intros H.
  rewrite head_kept by now apply one_backtick_is_no_fence.
  rewrite starts_with_cons in *. destruct (char_eqb backtick x); auto.
Qed.

Lemma no_two_backticks_after_removal (s : jsstring) :
  starts_with [backtick; backtick] s = false ->
  starts_with [backtick; backtick] (remove_fences_from s 0) = false.
Proof.
  destruct s as [| x s]; [reflexivity |]. intros H.
  rewrite head_kept by now apply two_backticks_are_no_fence.
  rewrite starts_with_cons in *.
  destruct (char_eqb backtick x); [| reflexivity]. cbn [andb] in *.
  now apply no_backtick_after_removal.
Qed.

Lemma fence_free_remove_fences (s : jsstring) (k : nat) :
  fence_free (remove_fences_from s k) = true.
Proof.
  revert k. induction s as [| x s IH]; intros k; [reflexivity |].
  cbn [remove_fences_from]. destruct k; [| apply IH].
  destruct (match_fence (x :: s)) eqn:M; [apply IH |].
  cbn [fence_free]. rewrite IH, andb_true_r. apply negb_true_iff.
  unfold match_fence in M.
  destruct (starts_with (str "```") (x :: s)) eqn:S; [discriminate |].
  change (str "```") with [backtick; backtick; backtick] in *.
  rewrite starts_with_cons in *.
  destruct (char_eqb backtick x); [| reflexivity]. cbn [andb] in *.
  now apply no_two_backticks_after_removal.
Qed.

End FenceFacts.
Import FenceFacts.

(* ================================================================== *)
(** * Facts about the extractor *)
(* ================================================================== *)

Module ExtractorFacts.

Lemma closer_of_brace : closer open_brace = close_brace.
Proof. reflexivity. Qed.

Lemma closer_of_bracket : closer open_bracket = close_bracket.
Proof. reflexivity. Qed.

Lemma closer_visible (o : char16) :
  opener o -> is_space (closer o) = false /\ closer o <> backtick.
Proof. intros [-> | ->]; split; (reflexivity || discriminate). Qed.

Lemma indexOf_framed (c : char16) (a r : jsstring) :
  lacks c a -> indexOf (a ++ c :: r) [c] = Z.of_nat (length a).
Proof.
  intros L. unfold indexOf. rewrite index_from_skip by assumption.
  apply index_from_head.
Qed.

Lemma indexOf_other (c x : char16) (a r : jsstring) :
  lacks c a -> c <> x ->
  indexOf (a ++ x :: r) [c] = (-1)%Z
  \/ (Z.of_nat (length a) < indexOf (a ++ x :: r) [c])%Z.
Proof.
  intros L N. unfold indexOf. rewrite index_from_skip by assumption.
  cbn [index_from]. rewrite starts_with_single.
  replace (char_eqb c x) with false by (symmetry; now apply char_eqb_neq).
  destruct (index_from_range c r (0 + Z.of_nat (length a) + 1)) as [E | R];
    [now left | right; lia].
Qed.

Lemma firstCharIndex_framed (a r : jsstring) (o : char16) :
  opener o -> lacks open_brace a -> lacks open_bracket a ->
  firstCharIndex (a ++ o :: r) = Z.of_nat (length a).
Proof.
  intros O La Lb. unfold firstCharIndex. destruct O as [-> | ->].
  - rewrite (indexOf_framed r La).
    destruct (@indexOf_other open_bracket open_brace a r Lb) as [E | E];
      [discriminate | |]; rewrite ?E.
    + destruct (Z.eqb_spec (Z.of_nat (length a)) (-1)); [lia | reflexivity].
    + destruct (Z.eqb_spec (Z.of_nat (length a)) (-1)); [lia |].
      destruct (Z.ltb_spec (Z.of_nat (length a))
                  (indexOf (a ++ open_brace :: r) [open_bracket]));
        [| lia].
      cbn. now rewrite orb_true_r.
  - rewrite (indexOf_framed r Lb).
    destruct (Z.eqb_spec (Z.of_nat (length a)) (-1)); [lia |].
    destruct (@indexOf_other open_brace open_bracket a r La) as [E | E];
      [discriminate | |].
    + rewrite E. reflexivity.
    + destruct (Z.eqb_spec (indexOf (a ++ open_bracket :: r) [open_brace])
                  (-1)); [reflexivity |].
      destruct (Z.ltb_spec (indexOf (a ++ open_bracket :: r) [open_brace])
                  (Z.of_nat (length a))); [lia | reflexivity].
Qed.

Lemma charAt_framed (a r : jsstring) (o : char16) :
  charAt (a ++ o :: r) (Z.of_nat (length a)) = Some o.
Proof.
  unfold charAt.
  destruct (Z.ltb_spec (Z.of_nat (length a)) 0); [lia |].
  rewrite Nat2Z.id, nth_error_app2, Nat.sub_diag by lia. reflexivity.
Qed.

Lemma lastIndexOf_framed (c : char16) (a b : jsstring) :
  lacks c b -> lastIndexOf (a ++ c :: b) [c] = Z.of_nat (length a).
Proof.
  intros L. unfold lastIndexOf.
  rewrite last_index_from_app by (assumption || lia). lia.
Qed.

(** The slice of a block framed by text without opening delimiters
    before it and without the closing delimiter after it is the block. *)
Lemma sliceCandidate_framed (a p b : jsstring) (o : char16) :
  opener o -> lacks open_brace a -> lacks open_bracket a ->
  lacks (closer o) b ->
  sliceCandidate (a ++ (o :: p ++ [closer o]) ++ b)
  = Some (o :: p ++ [closer o]).
Proof.
  intros O La Lb Lc. unfold sliceCandidate.
  assert (F : firstCharIndex (a ++ (o :: p ++ [closer o]) ++ b)
              = Z.of_nat (length a))
    by (now apply firstCharIndex_framed).
  rewrite F.
  destruct (Z.eqb_spec (Z.of_nat (length a)) (-1)); [lia |].
  assert (E : lastCharIndex (a ++ (o :: p ++ [closer o]) ++ b)
                (Z.of_nat (length a))
              = Z.of_nat (length (a ++ o :: p))).
  { unfold lastCharIndex.
    change ((o :: p ++ [closer o]) ++ b) with (o :: (p ++ [closer o]) ++ b).
    rewrite charAt_framed.
    replace (a ++ o :: (p ++ [closer o]) ++ b)
      with ((a ++ o :: p) ++ closer o :: b)
      by (rewrite <- !app_assoc; reflexivity).
    destruct O as [-> | ->]; cbn [char_eqb]; cbn -[lastIndexOf];
      now apply lastIndexOf_framed. }
  rewrite E, length_app. cbn [length].
  destruct (Z.eqb_spec (Z.of_nat (length a + S (length p))) (-1)); [lia |].
  destruct (Z.ltb_spec (Z.of_nat (length a + S (length p)))
              (Z.of_nat (length a))); [lia |].
  cbn [orb]. f_equal.
  replace (Z.of_nat (length a + S (length p)) + 1)%Z
    with (Z.of_nat (length a + length (o :: p ++ [closer o])))
    by (cbn [length]; rewrite length_app; simpl; lia).
  apply substring_middle.
Qed.

Lemma cleanedInput_framed (a p b : jsstring) (o : char16) :
  opener o -> fence_free (o :: p ++ [closer o]) = true ->
  cleanedInput (a ++ (o :: p ++ [closer o]) ++ b)
  = trimStart (remove_fences a)
    ++ (o :: p ++ [closer o]) ++ trimEnd (remove_fences b).
Proof.
  intros O F. unfold cleanedInput, remove_fences.
  change ((o :: p ++ [closer o]) ++ b) with (o :: (p ++ [closer o]) ++ b).
  rewrite remove_fences_from_stop by (assumption || lia).
  change (o :: (p ++ [closer o]) ++ b) with (((o :: p) ++ [closer o]) ++ b).
  destruct (closer_visible O) as [V T].
  rewrite remove_fences_keep by assumption.
  apply trim_framed; [now apply opener_visible | assumption].
Qed.

(** The extractor returns a parsable, fence-free object or array text
    when no opening delimiter precedes it and its closing delimiter does
    not occur after it. *)
Lemma extract_framed (a p b : jsstring) (o : char16) :
  opener o -> lacks open_brace a -> lacks open_bracket a ->
  lacks (closer o) b ->
  fence_free (o :: p ++ [closer o]) = true ->
  JSON_parse (o :: p ++ [closer o]) <> None ->
  extractJsonFromString (a ++ (o :: p ++ [closer o]) ++ b)
  = Some (o :: p ++ [closer o]).
Proof.
  intros O La Lb Lc F P.
  unfold extractJsonFromString, jsonCandidate.
  rewrite cleanedInput_framed by assumption.
  rewrite sliceCandidate_framed; auto.
  - destruct (JSON_parse (o :: p ++ [closer o])); congruence.
  - now apply lacks_trimStart, lacks_remove_fences.
  - now apply lacks_trimStart, lacks_remove_fences.
  - now apply lacks_trimEnd, lacks_remove_fences.
Qed.

End ExtractorFacts.
Import ExtractorFacts.

Module ExtractorShape.

Lemma firstCharIndex_cases (s : jsstring) :
  firstCharIndex s = (-1)%Z
  \/ exists o, opener o /\ firstCharIndex s = indexOf s [o]
               /\ indexOf s [o] <> (-1)%Z.
Proof.
  unfold firstCharIndex.
  destruct (Z.eqb_spec (indexOf s [open_brace]) (-1)) as [B | B];
    destruct (Z.eqb_spec (indexOf s [open_bracket]) (-1)) as [K | K];
    cbn [negb andb orb].
  - now left.
  - right. exists open_bracket. repeat split; auto. now right.
  - right. exists open_brace. repeat split; auto. now left.
  - destruct (indexOf s [open_brace] <? indexOf s [open_bracket])%Z; right.
    + exists open_brace. repeat split; auto. now left.
    + exists open_bracket. repeat split; auto. now right.
Qed.

Lemma indexOf_nth (c : char16) (s : jsstring) :
  indexOf s [c] <> (-1)%Z ->
  (0 <= indexOf s [c])%Z
  /\ nth_error s (Z.to_nat (indexOf s [c])) = Some c.
Proof.
  intros H. unfold indexOf in *. split.
  - destruct (index_from_range c s 0); [congruence | lia].
  - pose proof (index_from_nth c s 0 H) as N.
    now rewrite Z.sub_0_r in N.
Qed.

Lemma lastIndexOf_nth (c : char16) (s : jsstring) :
  lastIndexOf s [c] <> (-1)%Z ->
  (0 <= lastIndexOf s [c])%Z
  /\ nth_error s (Z.to_nat (lastIndexOf s [c])) = Some c.
Proof.
  intros H. unfold lastIndexOf in *. split.
  - destruct (@last_index_from_range c s 0); [lia | congruence | lia].
  - pose proof (@last_index_from_nth c s 0 (Z.le_refl 0) H) as N.
    now rewrite Z.sub_0_r in N.
Qed.

Lemma closer_differs (o : char16) : opener o -> closer o <> o.
Proof. intros [-> | ->]; discriminate. Qed.

Lemma lastCharIndex_of_opener (s : jsstring) (i : Z) (o : char16) :
  opener o -> charAt s i = Some o ->
  lastCharIndex s i = lastIndexOf s [closer o].
Proof.
  intros O C. unfold lastCharIndex. rewrite C.
  destruct O as [-> | ->]; reflexivity.
Qed.

(** Every slice is an object or array text cut out of the cleaned input:
    it begins with an opening delimiter and ends with its closer. *)
Lemma sliceCandidate_shape (cleaned c : jsstring) :
  sliceCandidate cleaned = Some c ->
  exists a p b o,
    opener o /\ cleaned = a ++ (o :: p ++ [closer o]) ++ b
    /\ c = o :: p ++ [closer o].
Proof.
  unfold sliceCandidate.
  destruct (firstCharIndex_cases cleaned) as [E | (o & O & E & N)];
    [now rewrite E |].
  rewrite E.
  destruct (Z.eqb_spec (indexOf cleaned [o]) (-1)); [congruence |].
  destruct (indexOf_nth _ _ N) as [F0 Fn].
  assert (C : charAt cleaned (indexOf cleaned [o]) = Some o).
  { unfold charAt.
    destruct (Z.ltb_spec (indexOf cleaned [o]) 0); [lia | exact Fn]. }
  rewrite (lastCharIndex_of_opener _ _ O C).
  destruct (Z.eqb_spec (lastIndexOf cleaned [closer o]) (-1)) as [L | L];
    [discriminate |].
  destruct (Z.ltb_spec (lastIndexOf cleaned [closer o])
              (indexOf cleaned [o])) as [R | R]; [discriminate |].
  cbn [orb]. intros [= <-].
  destruct (lastIndexOf_nth _ _ L) as [L0 Ln].
  assert (S : Z.to_nat (indexOf cleaned [o])
              < Z.to_nat (lastIndexOf cleaned [closer o])).
  { assert (indexOf cleaned [o] <> lastIndexOf cleaned [closer o]).
    { intros Q. rewrite Q in Fn. rewrite Fn in Ln.
      injection Ln as Ln. symmetry in Ln. now apply closer_differs in Ln. }
    lia. }
  remember (indexOf cleaned [o]) as i eqn:Ei.
  remember (lastIndexOf cleaned [closer o]) as j eqn:Ej.
  clear Ei Ej E N C L R.
  destruct (nth_error_split2 _ Fn Ln S) as (a & p & b & -> & La & Ld).
  exists a, p, b, o. repeat split; auto.
  replace i with (Z.of_nat (length a)) by lia.
  replace (j + 1)%Z
    with (Z.of_nat (length a + length (o :: p ++ [closer o]))) by lia.
  apply substring_middle.
Qed.

Lemma fence_free_trim (s : jsstring) :
  fence_free s = true -> fence_free (trim s) = true.
Proof.
  intros F. unfold trim.
  destruct (trimStart_suffix s) as [w E]. rewrite E in F.
  apply fence_free_app_r in F.
  destruct (trimEnd_prefix (trimStart s)) as [w' E']. rewrite E' in F.
  now apply fence_free_app_l in F.
Qed.

Lemma fence_free_cleanedInput (input : jsstring) :
  fence_free (cleanedInput input) = true.
Proof. apply fence_free_trim, fence_free_remove_fences. Qed.

(** What the extractor returns is a parsable, fence-free object or array
    text. *)
Lemma extracted_shape (input c : jsstring) :
  extractJsonFromString input = Some c ->
  exists p o,
    opener o /\ c = o :: p ++ [closer o]
    /\ fence_free c = true /\ JSON_parse c <> None.
Proof.
  unfold extractJsonFromString, jsonCandidate.
  destruct (sliceCandidate (cleanedInput input)) as [[| x k] |] eqn:S;
    try discriminate.
  destruct (JSON_parse (x :: k)) eqn:P; [| discriminate].
  intros [= <-].
  destruct (sliceCandidate_shape _ S) as (a & p & b & o & O & E & D).
  exists p, o. repeat split; auto.
  - pose proof (fence_free_cleanedInput input) as F.
    rewrite E in F. apply fence_free_app_r, fence_free_app_l in F.
    now rewrite D.
  - congruence.
Qed.

End ExtractorShape.
Import ExtractorShape.

(* ================================================================== *)
(** * Facts about the parser *)
(* ================================================================== *)

Module JsonFacts.

Lemma skip_ws_le (s : jsstring) : length (skip_ws s) <= length s.
Proof.
  induction s as [| c s IH]; simpl; [lia |].
  destruct (is_json_ws c); simpl; lia.
Qed.

Lemma skip_ws_cons (s r : jsstring) (c : char16) :
  skip_ws s = c :: r -> length r < length s.
Proof.
  intros H. pose proof (skip_ws_le s) as L. rewrite H in L. simpl in L. lia.
Qed.

Lemma prepend_rest (c : char16) (o : option (jsstring * jsstring))
  (t r : jsstring) :
  prepend c o = Some (t, r) -> exists t', o = Some (t', r).
Proof.
  destruct o as [[t' r'] |]; simpl; [| discriminate].
  intros [= _ <-]. now exists t'.
Qed.

Lemma parse_string_chars_lt (s t r : jsstring) :
  parse_string_chars s = Some (t, r) -> length r < length s.
Proof.
  remember (length s) as n eqn:N. revert s t r N.
  induction n as [n IH] using lt_wf_ind. intros s t r N.
  destruct s as [| c s]; [discriminate |]. cbn [parse_string_chars].
  destruct (c =? 34)%N.
  { intros [= _ <-]. subst. simpl. lia. }
  destruct (c =? 92)%N.
  - destruct s as [| e s]; [discriminate |].
    destruct (e =? 117)%N.
    + destruct s as [| h1 [| h2 [| h3 [| h4 s]]]]; try discriminate.
      destruct (hex4 h1 h2 h3 h4); [| discriminate].
      intros H. apply prepend_rest in H as [t' H].
      apply (IH (length s)) in H; subst; simpl in *; lia.
    + destruct (escape_char e); [| discriminate].
      intros H. apply prepend_rest in H as [t' H].
      apply (IH (length s)) in H; subst; simpl in *; lia.
  - destruct (c <? 32)%N; [discriminate |].
    intros H. apply prepend_rest in H as [t' H].
    apply (IH (length s)) in H; subst; simpl in *; lia.
Qed.

Lemma span_digits_le (s : jsstring) :
  length (snd (span_digits s)) <= length s.
Proof.
  induction s as [| c s IH]; simpl; [lia |].
  destruct (is_digit c); [| simpl; lia].
  destruct (span_digits s); simpl in *. lia.
Qed.

Lemma span_digits_rest (s r : jsstring) (ds : list N) :
  span_digits s = (ds, r) -> length r <= length s.
Proof.
  intros H. pose proof (span_digits_le s) as L. now rewrite H in L.
Qed.

Lemma parse_number_lt (s r : jsstring) (x : number) :
  parse_number s = Some (x, r) -> length r < length s.
Proof.
  unfold parse_number.
  set (signed := match s with
                 | c :: r0 => if (c =? 45)%N then (true, r0) else (false, s)
                 | [] => (false, s)
                 end).
  assert (S1 : length (snd signed) <= length s).
  { subst signed. destruct s as [| c s']; [simpl; lia |].
    destruct (c =? 45)%N; simpl; lia. }
  destruct signed as [neg s1]. cbn [snd] in S1.
  set (int_part := match s1 with
                   | c :: r0 =>
                       if (c =? 48)%N then Some ([0%N], r0)
                       else if is_digit c then Some (span_digits s1)
                       else None
                   | [] => None
                   end).
  assert (S2 : forall ds s2, int_part = Some (ds, s2) ->
                             length s2 < length s1).
  { subst int_part. intros ds s2. destruct s1 as [| c s1']; [discriminate |].
    destruct (c =? 48)%N; [intros [= _ <-]; simpl; lia |].
    destruct (is_digit c) eqn:D; [| discriminate].
    cbn [span_digits]. rewrite D.
    destruct (span_digits s1') as [ds' r'] eqn:E.
    intros [= _ <-]. apply span_digits_rest in E. simpl. lia. }
  destruct int_part as [[int_digits s2] |]; [| discriminate].
  specialize (S2 _ _ eq_refl).
  set (frac_part := match s2 with
                    | c :: r0 =>
                        if (c =? 46)%N then
                          match span_digits r0 with
                          | ([], _) => None
                          | (ds, r') => Some (ds, r')
                          end
                        else Some ([], s2)
                    | [] => Some ([], s2)
                    end).
  assert (S3 : forall ds s3, frac_part = Some (ds, s3) ->
                             length s3 <= length s2).
  { subst frac_part. intros ds s3. destruct s2 as [| c s2'];
      [intros [= _ <-]; lia |].
    destruct (c =? 46)%N; [| intros [= _ <-]; lia].
    destruct (span_digits s2') as [[| d ds'] r'] eqn:E; [discriminate |].
    intros [= _ <-]. apply span_digits_rest in E. simpl. lia. }
  destruct frac_part as [[frac_digits s3] |]; [| discriminate].
  specialize (S3 _ _ eq_refl).
  set (exp_part := match s3 with
                   | c :: r0 => _
                   | [] => Some (0%Z, s3)
                   end).
  assert (S4 : forall e s4, exp_part = Some (e, s4) ->
                            length s4 <= length s3).
  { subst exp_part. intros e s4. destruct s3 as [| c s3'];
      [intros [= _ <-]; lia |].
    destruct ((c =? 101) || (c =? 69))%N; [| intros [= _ <-]; lia].
    set (sg := match s3' with
               | sg :: r' =>
                   if (sg =? 45)%N then (true, r')
                   else if (sg =? 43)%N then (false, r') else (false, s3')
               | [] => (false, s3')
               end).
    assert (G : length (snd sg) <= length s3').
    { subst sg. destruct s3' as [| g s3'']; [simpl; lia |].
      destruct (g =? 45)%N; [simpl; lia |].
      destruct (g =? 43)%N; simpl; lia. }
    destruct sg as [eneg r1]. cbn [snd] in G.
    destruct (span_digits r1) as [[| d ds'] r2] eqn:E; [discriminate |].
    intros [= _ <-]. apply span_digits_rest in E. simpl. lia. }
  destruct exp_part as [[e s4] |]; [| discriminate].
  specialize (S4 _ _ eq_refl).
  intros [= _ <-]. lia.
Qed.

Lemma with_rest_parsed (A B : Type) (f : A -> B) (x : parsed A) (b : B)
  (r : jsstring) :
  with_rest f x = Parsed b r -> exists a, x = Parsed a r.
Proof.
  destruct x as [a r' | |]; simpl; try discriminate.
  intros [= _ <-]. now exists a.
Qed.

Lemma with_rest_fuel (A B : Type) (f : A -> B) (x : parsed A) :
  x <> OutOfFuel -> with_rest f x <> OutOfFuel.
Proof. destruct x; simpl; congruence. Qed.

Lemma literal_rest (lit : string) (s : jsstring) (n : nat) :
  starts_with (str lit) s = true -> length (str lit) = S n ->
  length (skipn (S n) s) < length s.
Proof.
  intros H L. apply StringFacts.starts_with_length in H.
  rewrite length_skipn. lia.
Qed.

End JsonFacts.
Import JsonFacts.

Module JsonFuel.

Ltac case_split :=
  repeat match goal with
    | |- context [match ?x with _ => _ end] => destruct x eqn:?
    end.

Ltac measure_rests :=
  repeat match goal with
    | H : skip_ws _ = _ :: _ |- _ => apply skip_ws_cons in H
    | H : parse_string_chars _ = Some _ |- _ =>
        apply parse_string_chars_lt in H
    | H : parse_number _ = Some _ |- _ => apply parse_number_lt in H
    | H : with_rest _ _ = Parsed _ _ |- _ =>
        apply with_rest_parsed in H as [? H]
    | H : starts_with (str _) _ = true |- _ =>
        apply starts_with_length in H; vm_compute (length (str _)) in H
    end.

Local Opaque skipn.

(** Whatever is parsed leaves strictly less input. *)
Lemma parse_consumes (fuel : nat) :
  (forall s v r, parse_value fuel s = Parsed v r -> length r < length s)
  /\ (forall s vs r,
      parse_elements fuel s = Parsed vs r -> length r < length s)
  /\ (forall s kvs r,
      parse_members fuel s = Parsed kvs r -> length r < length s).
Proof.
  induction fuel as [| fuel (IHv & IHe & IHm)];
    [repeat split; intros; discriminate |].
  repeat split.
  - intros s v r. cbn [parse_value]. case_split; try discriminate;
      intros [= _ <-] || intros H; measure_rests;
      repeat match goal with
        | H : parse_elements fuel _ = Parsed _ _ |- _ => apply IHe in H
        | H : parse_members fuel _ = Parsed _ _ |- _ => apply IHm in H
        end;
      try rewrite length_skipn; simpl in *; lia.
  - intros s vs r. cbn [parse_elements]. case_split; try discriminate;
      intros [= _ <-] || intros H; measure_rests;
      repeat match goal with
        | H : parse_elements fuel _ = Parsed _ _ |- _ => apply IHe in H
        | H : parse_value fuel _ = Parsed _ _ |- _ => apply IHv in H
        end;
      simpl in *; lia.
  - intros s kvs r. cbn [parse_members]. case_split; try discriminate;
      intros [= _ <-] || intros H; measure_rests;
      repeat match goal with
        | H : parse_members fuel _ = Parsed _ _ |- _ => apply IHm in H
        | H : parse_value fuel _ = Parsed _ _ |- _ => apply IHv in H
        end;
      simpl in *; lia.
Qed.

Local Transparent skipn.

(** With the fuel [JSON_parse] gives it, the parser never runs dry. *)
Lemma parse_fuel (fuel : nat) :
  (forall s, 2 * length s + 1 <= fuel -> parse_value fuel s <> OutOfFuel)
  /\ (forall s, 2 * length s + 2 <= fuel ->
                parse_elements fuel s <> OutOfFuel)
  /\ (forall s, 2 * length s + 2 <= fuel ->
                parse_members fuel s <> OutOfFuel).
Proof.
  induction fuel as [| fuel (IHv & IHe & IHm)];
    [repeat split; intros; lia |].
  repeat split.
  - intros s L. cbn [parse_value]. case_split; try discriminate;
      apply with_rest_fuel; (apply IHe || apply IHm);
      measure_rests; simpl in *; lia.
  - intros s L. cbn [parse_elements].
    destruct (parse_value fuel s) as [v r | |] eqn:V; try discriminate.
    + apply (proj1 (parse_consumes fuel)) in V.
      case_split; try discriminate.
      apply with_rest_fuel, IHe. measure_rests. simpl in *. lia.
    + exfalso. revert V. apply IHv. lia.
  - intros s L. cbn [parse_members]. case_split; try discriminate.
    + apply with_rest_fuel, IHm.
      match goal with
      | H : parse_value fuel _ = Parsed _ _ |- _ =>
          apply (proj1 (parse_consumes fuel)) in H
      end.
      measure_rests. simpl in *. lia.
    + exfalso.
      match goal with
      | H : parse_value fuel _ = OutOfFuel |- _ => revert H; apply IHv
      end.
      measure_rests. simpl in *. lia.
Qed.

(** [JSON_parse] fails only on a syntax error. *)
Lemma JSON_parse_fuel (s : jsstring) :
  parse_value (enough_fuel s) s <> OutOfFuel.
Proof. apply (proj1 (parse_fuel (enough_fuel s))). unfold enough_fuel. lia. Qed.

End JsonFuel.

(* ================================================================== *)
(** * Mode selection *)
(* ================================================================== *)

Module ModeSelection.

Lemma search_tool_always (host : Host) (p : TravelPreferences) :
  In googleSearch (tools (config (request host p))).
Proof.
  simpl. unfold requestTools. apply in_or_app. right. now left.
Qed.

Lemma truthy_number (x : number) :
  number_is_finite x = true -> number_is_zero x = false ->
  number_truthy x = true.
Proof. destruct x; simpl; congruence. Qed.

Lemma grounded_when (host : Host) (p : TravelPreferences) :
  useMapsGrounding p = true -> groundedRequest host p.
Proof.
  intros H. unfold groundedRequest. simpl. unfold requestTools.
  rewrite H. auto.
Qed.

Lemma structured_when (host : Host) (p : TravelPreferences) :
  useMapsGrounding p = false -> structuredRequest host p.
Proof.
  intros H. unfold structuredRequest. simpl. unfold requestTools.
  rewrite H. auto.
Qed.

(** C1, as stated, fails at the equator: latitude 0 and longitude 109.3333
    are both finite Numbers, yet the request is the Structured one, with
    no location tool and with the schema. *)
Lemma zero_latitude_selects_structured :
  (exists x y, latitude kyoto_from_equator = Coord x
               /\ longitude kyoto_from_equator = Coord y
               /\ number_is_finite x = true /\ number_is_finite y = true)
  /\ structuredRequest sample_host kyoto_from_equator
  /\ ~ groundedRequest sample_host kyoto_from_equator.
Proof.
  split; [| split].
  - eexists; eexists. repeat split; reflexivity.
  - repeat split; reflexivity.
  - intros [H _]. vm_compute in H. discriminate.
Qed.

(** C1 (amended): when both coordinates are finite Numbers other than
    zero the request is the Grounded one (location tool attached, no schema
    requested); when either coordinate is null or absent it is the
    Structured one (schema requested, no location tool); the search tool is
    attached in both. *)
Theorem mode_selection (host : Host) (p : TravelPreferences) :
  (forall x y,
      latitude p = Coord x -> longitude p = Coord y ->
      number_is_finite x = true -> number_is_finite y = true ->
      number_is_zero x = false -> number_is_zero y = false ->
      groundedRequest host p)
  /\ (missing (latitude p) \/ missing (longitude p) ->
      structuredRequest host p)
  /\ In googleSearch (tools (config (request host p))).
Proof.
  split; [| split].
  - intros x y Hx Hy Fx Fy Zx Zy. apply grounded_when.
    unfold useMapsGrounding. rewrite Hx, Hy. simpl.
    now rewrite !truthy_number.
  - intros H. apply structured_when. unfold useMapsGrounding.
    destruct H as [[H | H] | [H | H]]; rewrite H; simpl;
      auto using andb_false_r.
  - apply search_tool_always.
Qed.

Lemma mode_selection_witness :
  groundedRequest sample_host kyoto_located
  /\ structuredRequest sample_host kyoto
  /\ In googleSearch (tools (config (request sample_host kyoto))).
Proof.
  split; [| split].
  - apply (proj1 (mode_selection sample_host kyoto_located)
             (number_of_decimal false 350116 (-4))
             (number_of_decimal false 1357681 (-4)));
      reflexivity.
  - apply (proj1 (proj2 (mode_selection sample_host kyoto))).
    left. left. reflexivity.
  - apply (proj2 (proj2 (mode_selection sample_host kyoto))).
Defined.

End ModeSelection.

(* ================================================================== *)
(** * Citations *)
(* ================================================================== *)

Module Citations.

Lemma push_snippets (snippets : list ReviewSnippet) (acc : list Citation) :
  fold_left (fun acc snippet => acc ++ [snippetCitation snippet]) snippets acc
  = acc ++ map snippetCitation snippets.
Proof.
  revert acc. induction snippets as [| s rest IH]; intros acc; simpl.
  - now rewrite app_nil_r.
  - rewrite IH, <- app_assoc. reflexivity.
Qed.

Lemma snippetCitation_label (s : ReviewSnippet) :
  snippetCitation s = {| uri := snippet_uri s; title := Some (snippetLabel s) |}.
Proof.
  unfold snippetCitation, snippetLabel.
  destruct (snippet_title s) as [[| c t] |]; reflexivity.
Qed.

Lemma pushChunk_appends (acc : list Citation) (chunk : GroundingChunk) :
  pushChunk acc chunk = acc ++ entryCitations chunk.
Proof.
  unfold pushChunk, entryCitations.
  destruct (web chunk) as [w |]; [reflexivity |].
  destruct (maps chunk) as [m |]; [| now rewrite app_nil_r].
  destruct (maps_reviewSnippets m) as [snippets |]; simpl.
  - rewrite push_snippets, <- app_assoc. simpl. do 2 f_equal.
    apply map_ext. intros s. apply snippetCitation_label.
  - reflexivity.
Qed.

Lemma push_chunks (chunks : list GroundingChunk) (acc : list Citation) :
  fold_left pushChunk chunks acc = acc ++ flat_map entryCitations chunks.
Proof.
  revert acc. induction chunks as [| c rest IH]; intros acc; simpl.
  - now rewrite app_nil_r.
  - rewrite IH, pushChunk_appends, <- app_assoc. reflexivity.
Qed.

(** C7: the source URLs are the citations of the grounding entries, entry
    by entry in source order: a web entry gives its (link, label); a map
    entry gives the place and then one citation per review snippet, whose
    label is the placeholder when the snippet has none (or an empty one)
    and its own label otherwise; an entry of
    neither kind gives nothing; without metadata the result is empty; a
    map entry with two snippets gives exactly three citations, place
    first. *)
Theorem citations_in_source_order :
  (forall response chunks,
      responseChunks response = Some chunks ->
      collectSourceUrls response = flat_map entryCitations chunks)
  /\ (forall response,
      responseChunks response = None -> collectSourceUrls response = [])
  /\ (forall w m,
      entryCitations {| web := Some w; maps := m |}
      = [{| uri := web_uri w; title := web_title w |}])
  /\ (forall u t snippets,
      entryCitations
        {| web := None;
           maps := Some {| maps_uri := u; maps_title := t;
                           maps_reviewSnippets := Some snippets |} |}
      = {| uri := u; title := t |}
        :: map (fun s => {| uri := snippet_uri s;
                            title := Some (snippetLabel s) |}) snippets)
  /\ (forall s, snippet_title s = None -> snippetLabel s = review_link)
  /\ (forall s, snippet_title s = Some [] -> snippetLabel s = review_link)
  /\ (forall s c t, snippet_title s = Some (c :: t) -> snippetLabel s = c :: t)
  /\ entryCitations {| web := None; maps := None |} = []
  /\ (forall u t s1 s2,
      collectSourceUrls
        {| text := None;
           candidates := Some
             [{| groundingChunks := Some
                   [{| web := None;
                       maps := Some {| maps_uri := u; maps_title := t;
                                       maps_reviewSnippets :=
                                         Some [s1; s2] |} |}] |}] |}
      = [ {| uri := u; title := t |};
          {| uri := snippet_uri s1; title := Some (snippetLabel s1) |};
          {| uri := snippet_uri s2; title := Some (snippetLabel s2) |} ]).
Proof.
  repeat split.
  - intros response chunks H. unfold collectSourceUrls. rewrite H.
    apply push_chunks.
  - intros response H. unfold collectSourceUrls. now rewrite H.
  - intros s H. unfold snippetLabel. now rewrite H.
  - intros s H. unfold snippetLabel. now rewrite H.
  - intros s c t H. unfold snippetLabel. now rewrite H.
  - intros u t s1 s2. unfold collectSourceUrls. simpl.
    rewrite pushChunk_appends. reflexivity.
Qed.

Lemma citations_in_source_order_witness :
  collectSourceUrls
    (reply [] (Some [web_entry "https://example.org/a" "A"; temple_entry]))
  = [ {| uri := Some (str "https://example.org/a"); title := Some (str "A") |};
      {| uri := Some (str "https://maps.example/kinkakuji");
         title := Some (str "Kinkaku-ji") |};
      {| uri := Some (str "https://maps.example/review/1");
         title := Some (str "Golden at dusk") |};
      {| uri := Some (str "https://maps.example/review/2");
         title := Some (str "Review Link") |} ].
Proof.
  rewrite (proj1 citations_in_source_order _
             [web_entry "https://example.org/a" "A"; temple_entry]);
    reflexivity.
Defined.

End Citations.

(* ================================================================== *)
(** * Failures of the Model Client *)
(* ================================================================== *)

Module Failures.

Lemma run_generateItinerary (host : Host) (client : ModelClient)
  (p : TravelPreferences) :
  run client 0 (generateItinerary host p)
  = (match tryBlock host p (client 0 (request host p)) with
     | inl result => Returned result
     | inr error => Thrown (catchBlock error)
     end, 1).
Proof.
  simpl. destruct (tryBlock host p (client 0 (request host p))); reflexivity.
Qed.

Lemma api_key_message_distinct (isError : bool) (message : jsstring) :
  api_key_message <> genericMessage isError message.
Proof. unfold genericMessage. destruct isError; discriminate. Qed.

(** For a failure whose reason carries a message: when the first call of
    the Model Client is rejected with such a reason, the pipeline throws
    after that single call, whatever later calls would answer: the
    credential-selection message when the reason's message contains the
    known signature, and otherwise the generic message, which is never
    the credential one. *)
Lemma client_failure_is_rethrown (host : Host) (client : ModelClient)
  (p : TravelPreferences) (isError : bool) (message : jsstring) :
  client 0 (request host p) = Rejected (WithMessage isError message) ->
  (includes message entity_not_found = true ->
   run client 0 (generateItinerary host p)
   = (Thrown (Error api_key_message), 1))
  /\ (includes message entity_not_found = false ->
      run client 0 (generateItinerary host p)
      = (Thrown (Error (genericMessage isError message)), 1))
  /\ api_key_message <> genericMessage isError message.
Proof.
  intros H. rewrite run_generateItinerary, H. simpl.
  repeat split.
  - intros I. now rewrite I.
  - intros I. rewrite I. unfold genericMessage.
    destruct isError; reflexivity.
  - apply api_key_message_distinct.
Qed.

(** A client that is rejected once and would answer the second call. *)
Lemma client_failure_is_rethrown_witness :
  let flaky reason : ModelClient :=
    fun n _ =>
      match n with
      | O => Rejected reason
      | S _ => Fulfilled (reply (str "{}") None)
      end in
  run (flaky (Error (str "404 Requested entity was not found. (key)"))) 0
    (generateItinerary sample_host kyoto)
  = (Thrown (Error api_key_message), 1)
  /\ run (flaky (Error (str "fetch failed"))) 0
       (generateItinerary sample_host kyoto)
     = (Thrown (Error (str "Kesalahan API Gemini: fetch failed")), 1)
  /\ run (flaky (WithMessage false (str "quota"))) 0
       (generateItinerary sample_host kyoto)
     = (Thrown (Error unknown_error_message), 1).
Proof.
  intros flaky. split; [| split].
  - apply (proj1 (@client_failure_is_rethrown sample_host
                    (flaky (Error (str "404 Requested entity was not found. (key)")))
                    kyoto true _ eq_refl)).
    reflexivity.
  - apply (proj1 (proj2 (@client_failure_is_rethrown sample_host
                    (flaky (Error (str "fetch failed"))) kyoto true _
                    eq_refl))).
    reflexivity.
  - apply (proj1 (proj2 (@client_failure_is_rethrown sample_host
                    (flaky (WithMessage false (str "quota"))) kyoto false _
                    eq_refl))).
    reflexivity.
Defined.

(** C9 is right and the code misses it for a failure whose reason has
    no message (a rejection with a string, a number, [null] or an object
    without [message]): reading [error.message.includes] raises a
    [TypeError] before [error instanceof Error] is tested, and the
    pipeline throws that [TypeError] after its single call. Its message
    is not the credential one, and unless the host words it so, not a
    generic one either: the last branch of the [catch] block, written
    for values that are no instance of [Error], is not reached. *)
Theorem messageless_failure_escapes (host : Host) (client : ModelClient)
  (p : TravelPreferences) (typeError : jsstring) :
  client 0 (request host p) = Rejected (Messageless typeError) ->
  run client 0 (generateItinerary host p) = (Thrown (Error typeError), 1)
  /\ (typeError <> api_key_message ->
      typeError <> unknown_error_message ->
      starts_with api_error_prefix typeError = false ->
      forall isError message,
        Error typeError <> Error api_key_message
        /\ Error typeError <> Error (genericMessage isError message)).
Proof.
  intros H. rewrite run_generateItinerary, H. split; [reflexivity |].
  intros K U P isError message. unfold Error.
  split; [intros [= E]; now apply K |].
  unfold genericMessage. destruct isError; [| intros [= E]; now apply U].
  intros E.
  assert (S : forall a b, starts_with a (a ++ b) = true).
  { induction a as [| x a IH]; intros b; [reflexivity |].
    cbn [app starts_with]. unfold char_eqb. now rewrite N.eqb_refl, IH. }
  assert (T : typeError = api_error_prefix ++ message) by congruence.
  rewrite T, S in P. discriminate.
Qed.

(** The rejection with the string [timeout], as V8 words the
    [TypeError]. *)
Lemma messageless_failure_escapes_witness :
  let typeError :=
    str "Cannot read properties of undefined (reading 'includes')" in
  run (always (Rejected (Messageless typeError))) 0
    (generateItinerary sample_host kyoto)
  = (Thrown (Error typeError), 1)
  /\ forall isError message,
      Error typeError <> Error api_key_message
      /\ Error typeError <> Error (genericMessage isError message).
Proof.
  intros typeError.
  destruct (@messageless_failure_escapes sample_host
              (always (Rejected (Messageless typeError))) kyoto typeError
              eq_refl) as [R G].
  split; [exact R |].
  apply G; subst typeError; [discriminate | discriminate | reflexivity].
Defined.

End Failures.

(* ================================================================== *)
(** * The validator *)
(* ================================================================== *)

Module Validator.

Lemma accepted_shape (v : value) :
  invalidStructure v = false <->
  exists members d l,
    v = JObject members
    /\ lookup_member (str "destination") members = Some d
    /\ truthy d = true
    /\ lookup_member (str "itinerary") members = Some (JArray l).
Proof.
  unfold invalidStructure. split.
  - intros H.
    apply orb_false_elim in H as [H Hi].
    apply orb_false_elim in H as [_ Hd].
    apply negb_false_iff in Hd, Hi.
    destruct v as [| b | n | s | elements | members];
      try discriminate Hd.
    unfold get_property in Hd, Hi.
    destruct (lookup_member (str "destination") members) as [d |] eqn:Ed;
      [| discriminate Hd].
    destruct (lookup_member (str "itinerary") members)
      as [[| | | | l |] |] eqn:Ei;
      try discriminate Hi.
    now exists members, d, l.
  - intros (members & d & l & -> & Hd & Td & Hi).
    unfold get_property. rewrite Hd, Hi. cbn [truthy truthy_opt isArray].
    now rewrite Td.
Qed.

(** C6, as stated, fails for a destination that is an empty sequence: the
    text [{'destination':[],'itinerary':[]}] (with double quotes) parses, its destination is
    present and empty, and the validator accepts it. *)
Lemma empty_destination_is_accepted :
  exists v,
    JSON_parse (jq "{'destination':[],'itinerary':[]}") = Some v
    /\ field v "destination" = Some (JArray [])
    /\ invalidStructure v = false.
Proof.
  eexists. split; [vm_compute; reflexivity |]. split; reflexivity.
Qed.

(** C6 (amended): the validator accepts a parsed candidate if and only if
    it is an object whose destination is present and truthy (a text is
    truthy exactly when it is non-empty; null, false and zero are not;
    every array and object is, even an empty one) and whose itinerary is
    present and is a sequence, possibly empty; nothing else is looked at,
    so an object with only these two fields is accepted. *)
Theorem validator_accepts_iff (v : value) :
  (invalidStructure v = false <->
   exists d l,
     field v "destination" = Some d /\ truthy d = true
     /\ field v "itinerary" = Some (JArray l))
  /\ (forall s, truthy (JString s) = true <-> s <> [])
  /\ truthy JNull = false /\ truthy (JBool false) = false
  /\ (forall sign, truthy (JNumber (S754_zero sign)) = false)
  /\ (forall l, truthy (JArray l) = true)
  /\ (forall m, truthy (JObject m) = true)
  /\ (forall d l,
      truthy d = true ->
      invalidStructure
        (JObject [(str "destination", d); (str "itinerary", JArray l)])
      = false).
Proof.
  split; [| repeat split].
  - rewrite accepted_shape. split.
    + intros (members & d & l & -> & Hd & Td & Hi). now exists d, l.
    + intros (d & l & Hd & Td & Hi).
      destruct v as [| b | n | s | elements | members];
        try discriminate Hd.
      now exists members, d, l.
  - destruct s; simpl; congruence.
  - destruct s; simpl; congruence.
  - intros d l Td. apply accepted_shape.
    exists [(str "destination", d); (str "itinerary", JArray l)], d, l.
    repeat split; auto.
Qed.

Lemma validator_accepts_iff_witness :
  invalidStructure
    (JObject [(str "destination", JString (str "Kyoto"));
              (str "itinerary", JArray [])])
  = false.
Proof.
  apply (proj2 (proj2 (proj2 (proj2 (proj2 (proj2 (proj2
           (validator_accepts_iff JNull)))))))).
  reflexivity.
Defined.

End Validator.

(* ================================================================== *)
(** * Recovery of the reply *)
(* ================================================================== *)

Module Recovery.

Lemma fallback_fields (host : Host) (p : TravelPreferences)
  (raw : jsstring) :
  isFallback host p raw (fallbackItinerary host p raw).
Proof. repeat split. Qed.

(** C5: when the slice cut from the cleaned input does not parse, the
    extractor answers no-match; it answers with the slice itself, and
    with nothing else, when the slice parses. *)
Theorem unparsable_candidate_is_no_match (input candidate : jsstring) :
  jsonCandidate input = Some candidate ->
  (JSON_parse candidate = None -> extractJsonFromString input = None)
  /\ (forall result,
      extractJsonFromString input = Some result -> result = candidate).
Proof.
  intros H. unfold extractJsonFromString. rewrite H. split.
  - intros P. destruct candidate; [reflexivity |]. now rewrite P.
  - intros result. destruct candidate; [discriminate |].
    destruct (JSON_parse _); congruence.
Qed.

(** An object left open: closing it would make it parse. *)
Lemma unparsable_candidate_is_no_match_witness :
  jsonCandidate (jq "{'trip': {'days': 3}") = Some (jq "{'trip': {'days': 3}")
  /\ JSON_parse (jq "{'trip': {'days': 3}}") <> None
  /\ extractJsonFromString (jq "{'trip': {'days': 3}") = None.
Proof.
  split; [reflexivity |]. split; [vm_compute; discriminate |].
  apply (proj1 (unparsable_candidate_is_no_match
                  (jq "{'trip': {'days': 3}") eq_refl)).
  reflexivity.
Defined.

(** C2, as stated, fails when the reply has white space at an end: for the
    reply made of a space and [hi], which holds no JSON, the fallback
    overview is [hi] without the space, and not the reply text. *)
Lemma fallback_overview_is_trimmed :
  exists result,
    run (always (Fulfilled (reply (str " hi") None))) 0
      (generateItinerary sample_host kyoto)
    = (Returned result, 1)
    /\ extractJsonFromString (trim (str " hi")) = None
    /\ field (itineraryData result) "overview" = Some (JString (str "hi"))
    /\ field (itineraryData result) "overview"
       <> Some (JString (str " hi")).
Proof.
  eexists. split; [reflexivity |]. split; [reflexivity |].
  split; [reflexivity | discriminate].
Qed.

(** C2 (amended): when the extractor finds no match in the trimmed reply
    text, or, in Grounded mode, what it extracted is a structural
    mismatch, the pipeline returns without throwing a fallback itinerary:
    destination and duration copied from the preferences, overview equal
    to the reply text with the white space at both ends removed, empty
    itinerary and packing suggestions, the fixed note, the budget summary
    made from budget and currency; and the source URLs are empty whatever
    citation metadata the response carries. *)
Theorem fallback_on_no_match_or_grounded_mismatch (host : Host)
  (client : ModelClient) (p : TravelPreferences) (response : Response)
  (t : jsstring) :
  client 0 (request host p) = Fulfilled response ->
  text response = Some t ->
  extractJsonFromString (trim t) = None
  \/ (useMapsGrounding p = true
      /\ exists c, extractJsonFromString (trim t) = Some c
                   /\ structuralMismatch c) ->
  exists data,
    run client 0 (generateItinerary host p)
    = (Returned {| itineraryData := data; sourceUrls := [] |}, 1)
    /\ isFallback host p (trim t) data.
Proof.
  intros Hc Ht H. exists (fallbackItinerary host p (trim t)).
  split; [| apply fallback_fields].
  rewrite Failures.run_generateItinerary, Hc. unfold tryBlock. rewrite Ht.
  destruct H as [H | (G & c & H & M)]; rewrite H; [reflexivity |].
  destruct c as [| x c]; [reflexivity |].
  rewrite G. unfold structuralMismatch in M.
  destruct (JSON_parse (x :: c)); [now rewrite M | reflexivity].
Qed.

Lemma fallback_on_no_match_or_grounded_mismatch_witness :
  exists data,
    run (always (Fulfilled
           (reply (jq "Maaf. {'destination':'', 'itinerary':[]} ")
              (Some [temple_entry])))) 0
      (generateItinerary sample_host kyoto_located)
    = (Returned {| itineraryData := data; sourceUrls := [] |}, 1)
    /\ isFallback sample_host kyoto_located
         (jq "Maaf. {'destination':'', 'itinerary':[]}") data.
Proof.
  apply (@fallback_on_no_match_or_grounded_mismatch sample_host
           (always (Fulfilled
              (reply (jq "Maaf. {'destination':'', 'itinerary':[]} ")
                 (Some [temple_entry]))))
           kyoto_located _ (jq "Maaf. {'destination':'', 'itinerary':[]} ")
           eq_refl eq_refl).
  right. split; [reflexivity |].
  exists (jq "{'destination':'', 'itinerary':[]}").
  split; vm_compute; reflexivity.
Defined.

(** In Structured mode, what the structural check of the code refuses is
    thrown to the caller, as an error carrying the invalid-JSON message
    behind the API prefix; no result, hence no fallback, is returned. *)
Lemma structured_mismatch_is_thrown (host : Host) (client : ModelClient)
  (p : TravelPreferences) (response : Response) (t c : jsstring) :
  useMapsGrounding p = false ->
  client 0 (request host p) = Fulfilled response ->
  text response = Some t ->
  extractJsonFromString (trim t) = Some c ->
  structuralMismatch c ->
  run client 0 (generateItinerary host p)
  = (Thrown (Error (api_error_prefix ++ invalid_json_message)), 1)
  /\ forall result n,
      run client 0 (generateItinerary host p) <> (Returned result, n).
Proof.
  intros G Hc Ht He M.
  assert (R : run client 0 (generateItinerary host p)
              = (Thrown (Error (api_error_prefix ++ invalid_json_message)), 1)).
  { rewrite Failures.run_generateItinerary, Hc. unfold tryBlock.
    rewrite Ht, He, G. unfold structuralMismatch in M.
    assert (E : exists x c', c = x :: c').
    { destruct c as [| x c']; [| now exists x, c'].
      unfold extractJsonFromString in He.
      destruct (jsonCandidate (trim t)) as [[| y k] |]; try discriminate.
      destruct (JSON_parse (y :: k)); discriminate. }
    destruct E as (x & c' & ->).
    destruct (JSON_parse (x :: c')); [rewrite M |]; reflexivity. }
  split; [exact R |]. intros result n. rewrite R. discriminate.
Qed.

Lemma structured_mismatch_is_thrown_witness :
  run (always (Fulfilled
         (reply (jq "{'destination':'Kyoto','itinerary':'none'}") None))) 0
    (generateItinerary sample_host kyoto)
  = (Thrown (Error (str "Kesalahan API Gemini: Respons JSON tidak valid dari API, atau data terstruktur hilang.")), 1).
Proof.
  apply (@structured_mismatch_is_thrown sample_host
           (always (Fulfilled
              (reply (jq "{'destination':'Kyoto','itinerary':'none'}") None)))
           kyoto _ (jq "{'destination':'Kyoto','itinerary':'none'}")
           (jq "{'destination':'Kyoto','itinerary':'none'}")
           eq_refl eq_refl eq_refl);
    vm_compute; reflexivity.
Defined.

(** C10: whenever the pipeline returns, the [itinerary] field of the
    returned itinerary data is a sequence. *)
Theorem returned_itinerary_is_sequence (host : Host) (client : ModelClient)
  (p : TravelPreferences) (result : ItineraryResult) (n : nat) :
  run client 0 (generateItinerary host p) = (Returned result, n) ->
  exists days, field (itineraryData result) "itinerary" = Some (JArray days).
Proof.
  rewrite Failures.run_generateItinerary.
  assert (F : forall raw,
             exists days,
               field (itineraryData (fallbackResult host p raw)) "itinerary"
               = Some (JArray days)) by (intros raw; now exists []).
  assert (V : forall v,
             invalidStructure v = false ->
             exists days, field v "itinerary" = Some (JArray days)).
  { intros v H. apply Validator.accepted_shape in H
      as (members & d & l & -> & _ & _ & Hi). now exists l. }
  unfold tryBlock.
  destruct (client 0 (request host p)) as [response | reason];
    [| discriminate].
  destruct (text response) as [t |]; [| discriminate].
  destruct (extractJsonFromString (trim t)) as [[| x c] |];
    try (intros [= <- _]; apply F).
  destruct (useMapsGrounding p);
    destruct (JSON_parse (x :: c)) as [v |];
    try destruct (invalidStructure v) eqn:I;
    try discriminate;
    try (intros [= <- _]; apply F);
    intros [= <- _]; now apply V.
Qed.

Lemma returned_itinerary_is_sequence_witness :
  exists days,
    field (JObject [(str "destination", JString (str "Kyoto"));
                    (str "itinerary", JArray [])]) "itinerary"
    = Some (JArray days).
Proof.
  apply (@returned_itinerary_is_sequence sample_host
           (always (Fulfilled
              (reply (jq "{'destination':'Kyoto','itinerary':[]}") None)))
           kyoto
           {| itineraryData :=
                JObject [(str "destination", JString (str "Kyoto"));
                         (str "itinerary", JArray [])];
              sourceUrls := [] |} 1).
  vm_compute. reflexivity.
Defined.

End Recovery.

(* ================================================================== *)
(** * The extractor on fenced replies and on its own output *)
(* ================================================================== *)

Module ExtractorProperties.

Lemma lacks_app (c : char16) (s t : jsstring) :
  lacks c s -> lacks c t -> lacks c (s ++ t).
Proof. intros S T. apply Forall_app. now split. Qed.

Lemma fence_lacks_delimiters (c : char16) :
  c = open_brace \/ c = open_bracket \/ c = close_brace
  \/ c = close_bracket ->
  lacks c (str "```") /\ lacks c nl.
Proof.
  intros [-> | [-> | [-> | ->]]]; split; repeat constructor; discriminate.
Qed.

(** C4, as stated, fails when the prose before the block holds a brace:
    the same fenced document is extracted after one introduction and is
    lost after another. *)
Lemma prose_with_brace_defeats_extraction :
  JSON_parse (jq "{'days': 3}") <> None
  /\ extractJsonFromString
       (fencedReply (str "Here is the plan: ") (str "json")
          (jq "{'days': 3}") (str " Enjoy!"))
     = Some (jq "{'days': 3}")
  /\ extractJsonFromString
       (fencedReply (str "Fill {city} in yourself: ") (str "json")
          (jq "{'days': 3}") (str " Enjoy!"))
     = None.
Proof.
  split; [vm_compute; discriminate |]. split; vm_compute; reflexivity.
Qed.

(** C4 (amended): for a reply made of prose, a fenced block with a
    language tag around a document, and more prose, the extractor returns
    exactly the document, whatever the prose, provided that the document
    is an object or array text (from its opening delimiter to the matching
    closing one) that [JSON.parse] accepts and that holds no run of three
    backticks, that neither the prose before the block nor the tag holds
    an opening brace or bracket, and that the prose after the block does
    not hold the document's closing delimiter. *)
Theorem fenced_document_is_extracted (before tag after p : jsstring)
  (o : char16) :
  opener o ->
  lacks open_brace before -> lacks open_bracket before ->
  lacks open_brace tag -> lacks open_bracket tag ->
  lacks (closer o) after ->
  fence_free (o :: p ++ [closer o]) = true ->
  JSON_parse (o :: p ++ [closer o]) <> None ->
  extractJsonFromString (fencedReply before tag (o :: p ++ [closer o]) after)
  = Some (o :: p ++ [closer o]).
Proof.
  intros O Bb Bk Tb Tk A F P. unfold fencedReply.
  replace (before ++ str "```" ++ tag ++ nl ++ (o :: p ++ [closer o])
           ++ nl ++ str "```" ++ after)
    with ((before ++ str "```" ++ tag ++ nl) ++ (o :: p ++ [closer o])
          ++ (nl ++ str "```" ++ after))
    by (rewrite <- !app_assoc; reflexivity).
  apply extract_framed; auto.
  - repeat apply lacks_app; auto;
      apply (fence_lacks_delimiters (c := open_brace)); auto.
  - repeat apply lacks_app; auto;
      apply (fence_lacks_delimiters (c := open_bracket)); auto.
  - assert (C : closer o = close_brace \/ closer o = close_bracket)
      by (destruct O as [-> | ->]; auto).
    repeat apply lacks_app; auto;
      apply (fence_lacks_delimiters (c := closer o)); tauto.
Qed.

Lemma fenced_document_is_extracted_witness :
  extractJsonFromString
    (fencedReply (str "Berikut rencananya: ") (str "json")
       (jq "{'destination':'Kyoto','itinerary':[]}")
       (str " Selamat jalan [1]."))
  = Some (jq "{'destination':'Kyoto','itinerary':[]}").
Proof.
  apply (@fenced_document_is_extracted
           (str "Berikut rencananya: ") (str "json")
           (str " Selamat jalan [1].")
           (jq "'destination':'Kyoto','itinerary':[]") open_brace).
  - now left.
  - repeat constructor; discriminate.
  - repeat constructor; discriminate.
  - repeat constructor; discriminate.
  - repeat constructor; discriminate.
  - repeat constructor; discriminate.
  - reflexivity.
  - vm_compute. discriminate.
Defined.

(** C8: the extractor returns its own successful output unchanged. *)
Theorem extractor_idempotent (input c : jsstring) :
  extractJsonFromString input = Some c ->
  extractJsonFromString c = Some c.
Proof.
  intros H.
  destruct (extracted_shape _ H) as (p & o & O & -> & F & P).
  pose proof (@extract_framed [] p [] o O) as E.
  cbn [app] in E. rewrite app_nil_r in E.
  apply E; auto; constructor.
Qed.

Lemma extractor_idempotent_witness :
  extractJsonFromString
    (jq "Tentu! ```json {'days': [1, 2]} ``` Semoga membantu.")
  = Some (jq "{'days': [1, 2]}")
  /\ extractJsonFromString (jq "{'days': [1, 2]}")
     = Some (jq "{'days': [1, 2]}").
Proof.
  assert (H : extractJsonFromString
                (jq "Tentu! ```json {'days': [1, 2]} ``` Semoga membantu.")
              = Some (jq "{'days': [1, 2]}")) by reflexivity.
  split; [exact H | exact (extractor_idempotent _ H)].
Defined.

End ExtractorProperties.

(* ================================================================== *)
(** * More about the extractor *)
(* ================================================================== *)

Module ExtractorMore.

Lemma index_from_absent (c : char16) (s : jsstring) (i : Z) :
  lacks c s -> index_from [c] s i = (-1)%Z.
Proof.
  intros L. rewrite <- (app_nil_r s). rewrite index_from_skip by assumption.
  reflexivity.
Qed.

Lemma last_index_from_before (c : char16) (a b : jsstring) (i : Z) :
  (0 <= i)%Z -> lacks c b ->
  last_index_from [c] (a ++ b) i = last_index_from [c] a i.
Proof.
  revert i. induction a as [| x a IH]; intros i Hi L.
  - cbn [app]. rewrite last_index_from_absent by assumption. reflexivity.
  - cbn [app last_index_from]. rewrite IH by (assumption || lia).
    reflexivity.
Qed.

Lemma opener_is_no_fence (o : char16) (r : jsstring) :
  opener o -> starts_with (str "```") (o :: r) = false.
Proof. intros [-> | ->]; reflexivity. Qed.

Lemma cleanedInput_opened (a r : jsstring) (o : char16) :
  opener o ->
  cleanedInput (a ++ o :: r)
  = trimStart (remove_fences a) ++ o :: trimEnd (remove_fences r).
Proof.
  intros O. unfold cleanedInput, remove_fences, trim.
  rewrite remove_fences_from_stop by (assumption || lia).
  rewrite head_kept by now apply opener_is_no_fence.
  rewrite trimStart_stop by now apply opener_visible.
  pose proof (@trimEnd_stop (trimStart (remove_fences_from a 0))
                (remove_fences_from r 0) o (opener_visible O)) as T.
  rewrite <- !app_assoc in T. exact T.
Qed.

Lemma parsed_container (o : char16) (r : jsstring) (v : value) :
  opener o -> JSON_parse (o :: r) = Some v ->
  (o = open_brace /\ exists members, v = JObject members)
  \/ (o = open_bracket /\ exists elements, v = JArray elements).
Proof.
  intros O. unfold JSON_parse, enough_fuel.
  replace (2 * length (o :: r) + 1) with (S (2 * length (o :: r)))
    by lia.
  cbn [parse_value].
  replace (skip_ws (o :: r)) with (o :: r)
    by (destruct O as [-> | ->]; reflexivity).
  destruct O as [-> | ->].
  - change ((open_brace =? 123)%N) with true. cbv iota.
    destruct (skip_ws r) as [| c2 rest2]; [discriminate |].
    destruct (c2 =? 125)%N.
    + destruct (skip_ws rest2); [| discriminate].
      intros [= <-]. left. split; eauto.
    + destruct (parse_members _ r) as [m rest | |]; cbn [with_rest];
        try discriminate.
      destruct (skip_ws rest); [| discriminate].
      intros [= <-]. left. split; eauto.
  - change ((open_bracket =? 123)%N) with false.
    change ((open_bracket =? 91)%N) with true. cbv iota.
    destruct (skip_ws r) as [| c2 rest2]; [discriminate |].
    destruct (c2 =? 93)%N.
    + destruct (skip_ws rest2); [| discriminate].
      intros [= <-]. right. split; eauto.
    + destruct (parse_elements _ r) as [m rest | |]; cbn [with_rest];
        try discriminate.
      destruct (skip_ws rest); [| discriminate].
      intros [= <-]. right. split; eauto.
Qed.

(** X1: whatever the extractor returns is an object or array text, from an
    opening delimiter to its closer; it is accepted by [JSON.parse], as an
    object when it opens with a brace and as an array when it opens with
    a bracket; and it holds no run of three backticks. *)
Theorem extracted_text_is_sound (input c : jsstring) :
  extractJsonFromString input = Some c ->
  delimited c
  /\ fence_free c = true
  /\ exists v, JSON_parse c = Some v
               /\ ((exists members, v = JObject members)
                   \/ (exists elements, v = JArray elements)).
Proof.
  intros H. destruct (extracted_shape _ H) as (p & o & O & E & F & P).
  split; [now exists o, p |]. split; [assumption |].
  destruct (JSON_parse c) as [v |] eqn:V; [| congruence].
  exists v. split; [reflexivity |]. rewrite E in V.
  destruct (parsed_container _ O V) as [[_ M] | [_ M]]; auto.
Qed.

Lemma extracted_text_is_sound_witness :
  delimited (jq "[1, {'a': 2}]")
  /\ fence_free (jq "[1, {'a': 2}]") = true
  /\ exists v, JSON_parse (jq "[1, {'a': 2}]") = Some v
               /\ ((exists members, v = JObject members)
                   \/ (exists elements, v = JArray elements)).
Proof.
  apply (@extracted_text_is_sound (jq "List: [1, {'a': 2}] (two entries)")).
  reflexivity.
Defined.

(** X2: an object or array text that parses and holds no run of three
    backticks is extracted unchanged from any text around it, fenced or
    not, as long as no opening brace or bracket comes before it and its
    own closing delimiter does not come after it. *)
Theorem embedded_document_is_extracted (before after p : jsstring)
  (o : char16) :
  opener o ->
  lacks open_brace before -> lacks open_bracket before ->
  lacks (closer o) after ->
  fence_free (o :: p ++ [closer o]) = true ->
  JSON_parse (o :: p ++ [closer o]) <> None ->
  extractJsonFromString (before ++ (o :: p ++ [closer o]) ++ after)
  = Some (o :: p ++ [closer o]).
Proof. intros. now apply extract_framed. Qed.

Lemma embedded_document_is_extracted_witness :
  extractJsonFromString (jq "  Rencana: [1, {'a': 2}] - selesai {ya} ")
  = Some (jq "[1, {'a': 2}]").
Proof.
  apply (@embedded_document_is_extracted (jq "  Rencana: ")
           (jq " - selesai {ya} ") (jq "1, {'a': 2}") open_bracket).
  - now right.
  - repeat constructor; discriminate.
  - repeat constructor; discriminate.
  - repeat constructor; discriminate.
  - reflexivity.
  - vm_compute. discriminate.
Defined.

(** X3: a text without an opening brace and without an opening bracket,
    the empty text included, gives no match. *)
Theorem no_opening_delimiter_no_match (input : jsstring) :
  lacks open_brace input -> lacks open_bracket input ->
  extractJsonFromString input = None.
Proof.
  intros B K.
  assert (C : forall c, lacks c input -> lacks c (cleanedInput input)).
  { intros c L. unfold cleanedInput, trim.
    now apply lacks_trimEnd, lacks_trimStart, lacks_remove_fences. }
  unfold extractJsonFromString, jsonCandidate, sliceCandidate,
    firstCharIndex, indexOf.
  rewrite !index_from_absent by now apply C.
  reflexivity.
Qed.

Lemma no_opening_delimiter_no_match_witness :
  extractJsonFromString [] = None
  /\ extractJsonFromString (str "Maaf, saya tidak bisa membantu :} ]") = None.
Proof.
  split.
  - apply no_opening_delimiter_no_match; constructor.
  - apply no_opening_delimiter_no_match; repeat constructor; discriminate.
Defined.

(** X4: when the first opening delimiter of a text is never closed, that
    is, its closing delimiter does not occur after it, there is no match;
    a complete structure of the other kind further on is not tried. *)
Theorem unclosed_structure_no_match (before rest : jsstring) (o : char16) :
  opener o ->
  lacks open_brace before -> lacks open_bracket before ->
  lacks (closer o) rest ->
  extractJsonFromString (before ++ o :: rest) = None.
Proof.
  intros O B K L.
  unfold extractJsonFromString, jsonCandidate.
  rewrite (cleanedInput_opened _ _ O).
  set (a := trimStart (remove_fences before)).
  set (r := trimEnd (remove_fences rest)).
  assert (La : lacks open_brace a /\ lacks open_bracket a)
    by (split; now apply lacks_trimStart, lacks_remove_fences).
  assert (Lr : lacks (closer o) (o :: r)).
  { constructor; [apply not_eq_sym; now apply closer_differs |].
    now apply lacks_trimEnd, lacks_remove_fences. }
  destruct La as [La Lb].
  unfold sliceCandidate.
  rewrite (firstCharIndex_framed _ O La Lb).
  destruct (Z.eqb_spec (Z.of_nat (length a)) (-1)); [lia |].
  rewrite (lastCharIndex_of_opener _ _ O (charAt_framed a r o)).
  unfold lastIndexOf.
  rewrite last_index_from_before by (assumption || lia).
  destruct (@last_index_from_range (closer o) a 0) as [E | R]; [lia | |].
  - rewrite E. reflexivity.
  - destruct (Z.eqb_spec (last_index_from [closer o] a 0) (-1));
      [reflexivity |].
    destruct (Z.ltb_spec (last_index_from [closer o] a 0)
                (Z.of_nat (length a))); [reflexivity | lia].
Qed.

Lemma unclosed_structure_no_match_witness :
  extractJsonFromString (jq "Daftar: [1, 2 lalu {'a': 1}") = None.
Proof.
  apply (@unclosed_structure_no_match (jq "Daftar: ")
           (jq "1, 2 lalu {'a': 1}") open_bracket).
  - now right.
  - repeat constructor; discriminate.
  - repeat constructor; discriminate.
  - repeat constructor; discriminate.
Defined.

End ExtractorMore.

(* ================================================================== *)
(** * The cleaned text *)
(* ================================================================== *)

Module CleaningMore.

Lemma remove_fences_fence_free (s : jsstring) :
  fence_free s = true -> remove_fences s = s.
Proof.
  unfold remove_fences. induction s as [| c s IH]; [reflexivity |].
  cbn [fence_free]. intros F. apply andb_prop in F as [N F].
  apply negb_true_iff in N. rewrite head_kept by assumption.
  now rewrite IH.
Qed.

Lemma trimEnd_idempotent (s : jsstring) : trimEnd (trimEnd s) = trimEnd s.
Proof.
  induction s as [| c s IH]; [reflexivity |]. cbn [trimEnd].
  destruct (trimEnd s) as [| y t] eqn:E.
  - destruct (is_space c) eqn:C; [reflexivity |]. simpl. now rewrite C.
  - cbn [trimEnd]. cbn [trimEnd] in IH. now rewrite IH.
Qed.

Lemma trimStart_head (s : jsstring) :
  trimStart s = []
  \/ exists x r, trimStart s = x :: r /\ is_space x = false.
Proof.
  induction s as [| c s IH]; [now left |]. simpl.
  destruct (is_space c) eqn:C; [exact IH |]. right. now exists c, s.
Qed.

Lemma trimEnd_head (x : char16) (r : jsstring) :
  is_space x = false -> exists r', trimEnd (x :: r) = x :: r'.
Proof.
  intros X. cbn [trimEnd]. destruct (trimEnd r) as [| y t].
  - rewrite X. now exists [].
  - now exists (y :: t).
Qed.

Lemma trim_idempotent (s : jsstring) : trim (trim s) = trim s.
Proof.
  unfold trim.
  destruct (trimStart_head s) as [E | (x & r & E & X)]; rewrite E.
  - reflexivity.
  - destruct (@trimEnd_head x r X) as [r' T]. rewrite T.
    cbn [trimStart]. rewrite X, <- T. apply trimEnd_idempotent.
Qed.

(** X5: the cleaned text holds no run of three backticks and no white
    space at its ends, and cleaning it again leaves it as it is. *)
Theorem cleaning_is_idempotent (input : jsstring) :
  fence_free (cleanedInput input) = true
  /\ trim (cleanedInput input) = cleanedInput input
  /\ cleanedInput (cleanedInput input) = cleanedInput input.
Proof.
  pose proof (fence_free_cleanedInput input) as F.
  split; [exact F |]. split.
  - apply trim_idempotent.
  - unfold cleanedInput at 1. rewrite (remove_fences_fence_free _ F).
    apply trim_idempotent.
Qed.

End CleaningMore.

(* ================================================================== *)
(** * More about the pipeline *)
(* ================================================================== *)

Module PipelineMore.

Lemma extracted_nonempty (input c : jsstring) :
  extractJsonFromString input = Some c -> exists x k, c = x :: k.
Proof.
  intros H. destruct (extracted_shape _ H) as (p & o & _ & -> & _).
  now exists o, (p ++ [closer o]).
Qed.

(** X6: when the Model Client answers with a text from which the
    extractor takes a text that parses to a value the validator accepts,
    the pipeline returns that value as the itinerary data, with the
    citations of the response as source URLs, in either mode and after
    one call. *)
Theorem validated_reply_is_returned (host : Host) (client : ModelClient)
  (p : TravelPreferences) (response : Response) (t c : jsstring)
  (v : value) :
  client 0 (request host p) = Fulfilled response ->
  text response = Some t ->
  extractJsonFromString (trim t) = Some c ->
  JSON_parse c = Some v ->
  invalidStructure v = false ->
  run client 0 (generateItinerary host p)
  = (Returned {| itineraryData := v;
                 sourceUrls := collectSourceUrls response |}, 1).
Proof.
  intros Hc Ht He Hp Hv.
  rewrite Failures.run_generateItinerary, Hc. unfold tryBlock.
  rewrite Ht, He. destruct (extracted_nonempty _ He) as (x & k & ->).
  rewrite Hp, Hv. destruct (useMapsGrounding p); reflexivity.
Qed.

Lemma validated_reply_is_returned_witness :
  run (always (Fulfilled (reply kyoto_reply (Some [temple_entry])))) 0
    (generateItinerary sample_host kyoto)
  = (Returned
       {| itineraryData :=
            JObject [(str "destination", JString (str "Kyoto"));
                     (str "itinerary", JArray [])];
          sourceUrls :=
            collectSourceUrls (reply kyoto_reply (Some [temple_entry])) |},
     1).
Proof.
  apply (@validated_reply_is_returned sample_host _ kyoto
           (reply kyoto_reply (Some [temple_entry])) kyoto_reply
           (jq "{'destination':'Kyoto','itinerary':[]}"));
    reflexivity.
Defined.

Lemma thrown_is_Error (host : Host) (client : ModelClient)
  (p : TravelPreferences) (e : Exception) :
  fst (run client 0 (generateItinerary host p)) = Thrown e ->
  exists m, e = Error m.
Proof.
  rewrite Failures.run_generateItinerary. cbn [fst].
  destruct (tryBlock host p (client 0 (request host p))) as [r | x];
    [discriminate |].
  intros [= <-]. unfold catchBlock.
  destruct x as [i m | te]; [| now exists te].
  destruct (includes m entity_not_found); [now eexists |].
  destruct i; now eexists.
Qed.

(** X7: the pipeline calls the Model Client exactly once, and whatever
    it throws is an instance of [Error] with a message. *)
Theorem one_call_and_errors_only (host : Host) (client : ModelClient)
  (p : TravelPreferences) :
  snd (run client 0 (generateItinerary host p)) = 1
  /\ forall e,
      fst (run client 0 (generateItinerary host p)) = Thrown e ->
      exists m, e = Error m.
Proof.
  split; [now rewrite Failures.run_generateItinerary |].
  apply thrown_is_Error.
Qed.

Lemma one_call_and_errors_only_witness :
  snd (run (always (Rejected (Messageless (str "no message")))) 0
         (generateItinerary sample_host kyoto)) = 1
  /\ exists m, Error (str "no message") = Error m.
Proof.
  destruct (one_call_and_errors_only sample_host
              (always (Rejected (Messageless (str "no message")))) kyoto)
    as [N E].
  split; [exact N | exact (E _ eq_refl)].
Defined.

(** X8: a response without text makes the pipeline throw: the message
    of the [TypeError] raised by [trim], behind the API prefix, unless
    that message should hold the credential signature. *)
Theorem missing_text_is_thrown (host : Host) (client : ModelClient)
  (p : TravelPreferences) (response : Response) :
  client 0 (request host p) = Fulfilled response ->
  text response = None ->
  includes (undefined_trim_message host) entity_not_found = false ->
  run client 0 (generateItinerary host p)
  = (Thrown (Error (api_error_prefix ++ undefined_trim_message host)), 1).
Proof.
  intros Hc Ht Hi.
  rewrite Failures.run_generateItinerary, Hc. unfold tryBlock.
  rewrite Ht. cbn [catchBlock Error]. now rewrite Hi.
Qed.

Lemma missing_text_is_thrown_witness :
  run (always (Fulfilled {| text := None; candidates := None |})) 0
    (generateItinerary sample_host kyoto_located)
  = (Thrown (Error (str "Kesalahan API Gemini: Cannot read properties of undefined (reading 'trim')")), 1).
Proof.
  apply (@missing_text_is_thrown sample_host _ kyoto_located
           {| text := None; candidates := None |});
    reflexivity.
Defined.

(** X9: in Grounded mode the pipeline returns whenever the Model Client
    answers with a text: either the validated value or a fallback, never
    an error. *)
Theorem grounded_reply_always_returns (host : Host) (client : ModelClient)
  (p : TravelPreferences) (response : Response) (t : jsstring) :
  useMapsGrounding p = true ->
  client 0 (request host p) = Fulfilled response ->
  text response = Some t ->
  exists data urls,
    run client 0 (generateItinerary host p)
    = (Returned {| itineraryData := data; sourceUrls := urls |}, 1)
    /\ ((data = fallbackItinerary host p (trim t) /\ urls = [])
        \/ (invalidStructure data = false
            /\ urls = collectSourceUrls response)).
Proof.
  intros G Hc Ht.
  rewrite Failures.run_generateItinerary, Hc. unfold tryBlock.
  rewrite Ht, G.
  destruct (extractJsonFromString (trim t)) as [[| x k] |];
    try (eexists; eexists; split; [reflexivity | now left]).
  destruct (JSON_parse (x :: k)) as [v |];
    [| eexists; eexists; split; [reflexivity | now left]].
  destruct (invalidStructure v) eqn:I;
    eexists; eexists; (split; [reflexivity |]); [now left | now right].
Qed.

Lemma grounded_reply_always_returns_witness :
  exists data urls,
    run (always (Fulfilled (reply (str "I cannot help with that.") None))) 0
      (generateItinerary sample_host kyoto_located)
    = (Returned {| itineraryData := data; sourceUrls := urls |}, 1)
    /\ ((data = fallbackItinerary sample_host kyoto_located
                  (trim (str "I cannot help with that."))
         /\ urls = [])
        \/ (invalidStructure data = false
            /\ urls = collectSourceUrls
                        (reply (str "I cannot help with that.") None))).
Proof.
  apply (@grounded_reply_always_returns sample_host _ kyoto_located
           (reply (str "I cannot help with that.") None)
           (str "I cannot help with that."));
    reflexivity.
Defined.

(** X10: the fallback itinerary passes the validator's own check exactly
    when the destination of the preferences is not empty. *)
Theorem fallback_is_valid_iff (host : Host) (p : TravelPreferences)
  (raw : jsstring) :
  invalidStructure (fallbackItinerary host p raw) = false
  <-> destination p <> [].
Proof.
  unfold invalidStructure, fallbackItinerary, get_property.
  cbn [lookup_member string_eqb char_eqb str map list_ascii_of_string].
  vm_compute (lookup_member _ _).
  cbn [truthy truthy_opt isArray negb orb].
  destruct (destination p); simpl; split; congruence.
Qed.

(** X11: the request never carries the location tool together with a
    response schema: the location tool, the retrieval configuration with
    the coordinates of the preferences, the absence of the schema and of
    the MIME type, and the flash model all go with Grounded mode, and
    their opposites with Structured mode. *)
Theorem request_is_coherent (host : Host) (p : TravelPreferences) :
  let cfg := config (request host p) in
  (In googleMaps (tools cfg) <-> useMapsGrounding p = true)
  /\ (toolConfig cfg
      = Some {| retrievalConfig_latLng :=
                  {| latLng_latitude := latitude p;
                     latLng_longitude := longitude p |} |}
      <-> useMapsGrounding p = true)
  /\ (toolConfig cfg = None <-> useMapsGrounding p = false)
  /\ (responseSchema cfg = None <-> useMapsGrounding p = true)
  /\ (responseSchema cfg = Some itinerarySchema
      <-> useMapsGrounding p = false)
  /\ (responseMimeType cfg = None <-> useMapsGrounding p = true)
  /\ (model (request host p) = str "gemini-2.5-flash"
      <-> useMapsGrounding p = true)
  /\ (model (request host p) = str "gemini-3-pro-preview"
      <-> useMapsGrounding p = false).
Proof.
  cbn zeta. unfold request, generateContentConfig, requestTools,
    requestToolConfig, modelToUse.
  cbn [config tools toolConfig responseSchema responseMimeType model].
  destruct (useMapsGrounding p); repeat split; intros H;
    try reflexivity; try discriminate; try (now left).
  destruct H as [H | []]. discriminate.
Qed.

End PipelineMore.

(* ================================================================== *)
(** * The source links *)
(* ================================================================== *)

Module DisplayMore.

Lemma snippetLabel_nonempty (s : ReviewSnippet) : snippetLabel s <> [].
Proof.
  unfold snippetLabel. destruct (snippet_title s) as [[| c t] |];
    discriminate.
Qed.

(** X12: for every citation made from a review snippet, the text of the
    source link, [source.title || source.uri], is the citation's title,
    which is never empty: the snippet's own title when it has one that is
    not empty, the placeholder otherwise; the address is never used. *)
Theorem snippet_links_are_titled (s : ReviewSnippet) :
  exists label,
    title (snippetCitation s) = Some label /\ label <> []
    /\ Display.sourceLabel (snippetCitation s) = Some label
    /\ (forall c t, snippet_title s = Some (c :: t) -> label = c :: t)
    /\ (snippet_title s = None \/ snippet_title s = Some [] ->
        label = review_link).
Proof.
  exists (snippetLabel s). rewrite Citations.snippetCitation_label.
  pose proof (snippetLabel_nonempty s) as N.
  unfold Display.sourceLabel. cbn [title].
  split; [reflexivity |]. split; [exact N |]. split.
  - destruct (snippetLabel s); [congruence | reflexivity].
  - unfold snippetLabel. split.
    + intros c t H. now rewrite H.
    + intros [H | H]; now rewrite H.
Qed.

End DisplayMore.

(* ================================================================== *)
(** * The input form *)
(* ================================================================== *)

Module FormMore.

Lemma positive_number (x : number) :
  Form.number_gt x Form.zero = true ->
  x <> S754_nan /\ number_truthy x = true.
Proof.
  unfold Form.number_gt, Form.zero, SFltb.
  destruct x as [s | s | | s m e]; simpl; try discriminate;
    intros _; split; (discriminate || reflexivity).
Qed.

Lemma non_negative_number (x : number) :
  Form.number_ge x Form.zero = true -> x <> S754_nan.
Proof.
  unfold Form.number_ge, Form.zero, SFleb.
  destruct x as [s | s | | s m e]; simpl; try discriminate;
    intros _; discriminate.
Qed.

(** X13: the form submits only complete preferences: the fields as
    entered, a destination, interests and a currency that are not empty,
    a duration above zero, a budget of at least zero, neither of them
    NaN, and no coordinates; when the duration is NaN, as after clearing
    the field, nothing is submitted and the alert is shown. *)
Theorem form_submits_complete_preferences (s : Form.FormState) :
  (forall p,
      Form.handleSubmit s = Form.Submitted p ->
      destination p = Form.form_destination s
      /\ duration p = Form.form_duration s
      /\ interests p = Form.form_interests s
      /\ budget p = Form.form_budget s
      /\ currency p = Form.form_currency s
      /\ destination p <> [] /\ interests p <> [] /\ currency p <> []
      /\ Form.number_gt (duration p) Form.zero = true
      /\ Form.number_ge (budget p) Form.zero = true
      /\ duration p <> S754_nan /\ budget p <> S754_nan
      /\ latitude p = Absent /\ longitude p = Absent)
  /\ (Form.form_duration s = S754_nan ->
      Form.handleSubmit s = Form.Alerted Form.incomplete_text).
Proof.
  unfold Form.handleSubmit, Form.complete. split.
  - intros p.
    destruct (Form.string_truthy (Form.form_destination s)) eqn:D;
      [| discriminate].
    destruct (Form.number_gt (Form.form_duration s) Form.zero) eqn:U;
      [| discriminate].
    destruct (Form.string_truthy (Form.form_interests s)) eqn:I;
      [| discriminate].
    destruct (Form.number_ge (Form.form_budget s) Form.zero) eqn:B;
      [| discriminate].
    destruct (Form.string_truthy (Form.form_currency s)) eqn:C;
      [| discriminate].
    cbn [andb]. intros [= <-]. cbn.
    repeat split; auto.
    + intros E. now rewrite E in D.
    + intros E. now rewrite E in I.
    + intros E. now rewrite E in C.
    + now apply positive_number.
    + now apply non_negative_number.
  - intros N. rewrite N.
    destruct (Form.string_truthy (Form.form_destination s)); reflexivity.
Qed.

Lemma form_submits_complete_preferences_witness :
  destination kyoto <> [] /\ latitude kyoto = Absent
  /\ Form.number_gt (duration kyoto) Form.zero = true.
Proof.
  pose proof (proj1 (form_submits_complete_preferences sample_form)
                kyoto eq_refl) as H.
  repeat split; apply H.
Defined.

End FormMore.

(* ================================================================== *)
(** * The application *)
(* ================================================================== *)

Module AppMore.

Lemma usable_coordinates (s : App.AppState) :
  App.locationUsable s = true ->
  exists x y,
    App.currentLatitude s = Some x /\ App.currentLongitude s = Some y
    /\ number_truthy x = true /\ number_truthy y = true
    /\ App.geolocationEnabled s = true
    /\ App.text_truthy (App.locationError s) = false.
Proof.
  unfold App.locationUsable. intros H.
  apply andb_prop in H as [H E]. apply andb_prop in H as [H Y].
  apply andb_prop in H as [G X]. apply negb_true_iff in E.
  destruct (App.currentLatitude s) as [x |]; [| discriminate].
  destruct (App.currentLongitude s) as [y |]; [| discriminate].
  now exists x, y.
Qed.

(** X14: for preferences that come without coordinates, as those of the
    form do, the request is the Grounded one exactly when the location
    is switched on, both stored coordinates are truthy and no location
    error is set, and then it carries the stored coordinates; otherwise
    the preferences go out unchanged and the request is the Structured
    one. In particular nothing of the location is sent while it is
    switched off. *)
Theorem location_is_sent_only_when_usable (host : Host)
  (s : App.AppState) (p : TravelPreferences) :
  latitude p = Absent -> longitude p = Absent ->
  useMapsGrounding (App.fullPreferences s p) = App.locationUsable s
  /\ (App.locationUsable s = true ->
      latitude (App.fullPreferences s p)
      = App.coordinateOf (App.currentLatitude s)
      /\ longitude (App.fullPreferences s p)
         = App.coordinateOf (App.currentLongitude s)
      /\ groundedRequest host (App.fullPreferences s p))
  /\ (App.locationUsable s = false ->
      App.fullPreferences s p = p
      /\ structuredRequest host (App.fullPreferences s p))
  /\ (App.geolocationEnabled s = false -> App.locationUsable s = false).
Proof.
  intros A O.
  assert (U : useMapsGrounding (App.fullPreferences s p)
              = App.locationUsable s).
  { unfold App.fullPreferences.
    destruct (App.locationUsable s) eqn:L.
    - destruct (usable_coordinates s L) as (x & y & -> & -> & X & Y & _).
      unfold useMapsGrounding. simpl. now rewrite X, Y.
    - unfold useMapsGrounding. now rewrite A. }
  split; [exact U |]. split; [| split].
  - intros L. rewrite L in U. split; [| split].
    + unfold App.fullPreferences. now rewrite L.
    + unfold App.fullPreferences. now rewrite L.
    + now apply ModeSelection.grounded_when.
  - intros L. rewrite L in U. split.
    + unfold App.fullPreferences. now rewrite L.
    + now apply ModeSelection.structured_when.
  - intros G. unfold App.locationUsable. now rewrite G.
Qed.

Lemma location_is_sent_only_when_usable_witness :
  groundedRequest sample_host (App.fullPreferences located_state kyoto)
  /\ structuredRequest sample_host
       (App.fullPreferences App.initialState kyoto).
Proof.
  split.
  - apply (proj1 (proj2 (@location_is_sent_only_when_usable sample_host
                           located_state kyoto eq_refl eq_refl))).
    reflexivity.
  - apply (proj1 (proj2 (proj2 (@location_is_sent_only_when_usable
                           sample_host App.initialState kyoto
                           eq_refl eq_refl)))).
    reflexivity.
Defined.

Lemma step_consistent (host : Host) (s : App.AppState) (e : App.Event) :
  App.consistent s -> App.consistent (App.step host s e).
Proof.
  intros (L & R & I). destruct e as [en su | la lo | code | cl pr];
    cbn [App.step].
  - unfold App.onGeolocationToggle.
    destruct (Bool.eqb en (App.geolocationEnabled s)); [now split |].
    unfold App.requestGeolocation. cbn.
    destruct en; cbn; [destruct su; cbn |];
      (split; [| now split]); intros H; try discriminate; auto.
  - cbn. split; [| now split]. discriminate.
  - cbn. split; [| now split]. auto.
  - unfold App.handleSubmit.
    destruct (run cl 0 (generateItinerary host (App.fullPreferences s pr)))
      as [[r | x] n]; cbn; (split; [exact L |]); split; auto.
Qed.

(** X15: after any sequence of toggles, positions, location errors and
    completed submissions, a location error and stored coordinates never
    stand together, a result and an error never stand together, and
    nothing is left loading. *)
Theorem application_stays_consistent (host : Host)
  (events : list App.Event) :
  App.consistent (App.after host events).
Proof.
  unfold App.after.
  assert (G : forall s, App.consistent s ->
                        App.consistent (fold_left (App.step host) events s)).
  { induction events as [| e rest IH]; intros s C; [exact C |].
    cbn [fold_left]. apply IH. now apply step_consistent. }
  apply G. repeat split; auto; discriminate.
Qed.

(** X16: a submission ends with the loading flag down, the budget and
    the currency of the preferences recorded, the location left as it
    was, the Model Client called once, and either a result and no error,
    or an error message and no result. *)
Theorem submission_settles (host : Host) (client : ModelClient)
  (s : App.AppState) (p : TravelPreferences) :
  let s' := fst (App.handleSubmit host client s p) in
  snd (App.handleSubmit host client s p) = 1
  /\ App.isLoading s' = false
  /\ App.initialUserBudget s' = budget p
  /\ App.initialUserCurrency s' = currency p
  /\ App.currentLatitude s' = App.currentLatitude s
  /\ App.currentLongitude s' = App.currentLongitude s
  /\ App.locationError s' = App.locationError s
  /\ App.isGettingLocation s' = App.isGettingLocation s
  /\ App.geolocationEnabled s' = App.geolocationEnabled s
  /\ ((exists r, App.itineraryResult s' = Some r /\ App.error s' = None
                 /\ fst (run client 0
                           (generateItinerary host
                              (App.fullPreferences s p))) = Returned r)
      \/ (exists m, App.itineraryResult s' = None
                    /\ App.error s' = Some m
                    /\ fst (run client 0
                              (generateItinerary host
                                 (App.fullPreferences s p)))
                       = Thrown (Error m))).
Proof.
  cbn zeta. unfold App.handleSubmit.
  pose proof (@PipelineMore.thrown_is_Error host client
                (App.fullPreferences s p)) as E.
  assert (N : snd (run client 0
                     (generateItinerary host (App.fullPreferences s p))) = 1)
    by now rewrite Failures.run_generateItinerary.
  destruct (run client 0 (generateItinerary host (App.fullPreferences s p)))
    as [[r | x] n] eqn:R; cbn in *; subst n.
  - repeat split. left. now exists r.
  - destruct (E x eq_refl) as [m ->]. repeat split. right. now exists m.
Qed.



End AppMore.

(* ================================================================== *)
(** * The earlier extractor *)
(* ================================================================== *)

Module LegacyMore.

Lemma index_from_first (c : char16) (a r : jsstring) (i : Z) :
  index_from [c] (a ++ r) i = (i + Z.of_nat (length a))%Z -> lacks c a.
Proof.
  revert i. induction a as [| x a IH]; intros i H; [constructor |].
  cbn [app index_from] in H. rewrite starts_with_single in H.
  destruct (char_eqb c x) eqn:E.
  - cbn [length] in H. lia.
  - constructor.
    + apply char_eqb_neq in E. congruence.
    + apply (IH (i + 1)%Z). rewrite H. cbn [length]. lia.
Qed.

Lemma last_index_from_none (c : char16) (b : jsstring) (j : Z) :
  (0 <= j)%Z -> last_index_from [c] b j = (-1)%Z -> lacks c b.
Proof.
  revert j. induction b as [| x b IH]; intros j Hj H; [constructor |].
  cbn [last_index_from] in H.
  destruct (Z.eqb_spec (last_index_from [c] b (j + 1)) (-1)) as [E | E];
    [| congruence].
  rewrite starts_with_single in H.
  destruct (char_eqb c x) eqn:X; [lia |].
  constructor.
  - apply char_eqb_neq in X. congruence.
  - apply (IH (j + 1)%Z); [lia | assumption].
Qed.

Lemma last_index_from_last (c : char16) (a b : jsstring) (i : Z) :
  (0 <= i)%Z ->
  last_index_from [c] (a ++ c :: b) i = (i + Z.of_nat (length a))%Z ->
  lacks c b.
Proof.
  revert i. induction a as [| x a IH]; intros i Hi H.
  - cbn [app last_index_from length] in H.
    destruct (Z.eqb_spec (last_index_from [c] b (i + 1)) (-1)) as [E | E].
    + apply (@last_index_from_none c b (i + 1)%Z); [lia | assumption].
    + destruct (@last_index_from_range c b (i + 1)%Z); lia.
  - cbn [app last_index_from length] in H.
    destruct (Z.eqb_spec (last_index_from [c] (a ++ c :: b) (i + 1)) (-1))
      as [E | E].
    + destruct (starts_with [c] (x :: a ++ c :: b)); lia.
    + apply (IH (i + 1)%Z); [lia |]. rewrite H. lia.
Qed.

(** The text between the first [o] and the last closer of [o]. *)
Lemma between_shape (s c : jsstring) (o : char16) :
  opener o ->
  Legacy.between s o (closer o) = Some c ->
  exists a p b,
    s = a ++ (o :: p ++ [closer o]) ++ b /\ c = o :: p ++ [closer o]
    /\ lacks o a /\ lacks (closer o) b.
Proof.
  intros O. unfold Legacy.between.
  destruct (Z.eqb_spec (indexOf s [o]) (-1)) as [F | F]; [discriminate |].
  destruct (Z.eqb_spec (lastIndexOf s [closer o]) (-1)) as [L | L];
    [discriminate |].
  destruct (Z.ltb_spec (indexOf s [o]) (lastIndexOf s [closer o]))
    as [R | R]; [| discriminate].
  cbn [negb andb]. intros [= <-].
  destruct (indexOf_nth _ _ F) as [F0 Fn].
  destruct (lastIndexOf_nth _ _ L) as [L0 Ln].
  assert (S : Z.to_nat (indexOf s [o]) < Z.to_nat (lastIndexOf s [closer o]))
    by lia.
  destruct (nth_error_split2 _ Fn Ln S) as (a & p & b & E & La & Ld).
  exists a, p, b.
  assert (Fa : lacks o a).
  { apply (@index_from_first o a ((o :: p ++ [closer o]) ++ b) 0).
    rewrite <- E. fold (indexOf s [o]). lia. }
  assert (Lb : lacks (closer o) b).
  { apply (@last_index_from_last (closer o) (a ++ o :: p) b 0); [lia |].
    replace ((a ++ o :: p) ++ closer o :: b) with s
      by (rewrite E, <- !app_assoc; cbn; now rewrite <- app_assoc).
    fold (lastIndexOf s [closer o]). rewrite length_app. cbn [length] in *.
    rewrite length_app in Ld. cbn [length] in Ld. lia. }
  repeat split; auto.
  remember (indexOf s [o]) as i eqn:Ei.
  remember (lastIndexOf s [closer o]) as j eqn:Ej.
  clear Ei Ej Fa Lb Fn Ln. subst s.
  replace i with (Z.of_nat (length a)) by lia.
  replace (j + 1)%Z
    with (Z.of_nat (length a + length (o :: p ++ [closer o]))) by lia.
  apply substring_middle.
Qed.

Lemma between_framed (a p b : jsstring) (o : char16) :
  opener o -> lacks o a -> lacks (closer o) b ->
  Legacy.between (a ++ (o :: p ++ [closer o]) ++ b) o (closer o)
  = Some (o :: p ++ [closer o]).
Proof.
  intros O La Lb. unfold Legacy.between.
  change ((o :: p ++ [closer o]) ++ b) with (o :: (p ++ [closer o]) ++ b).
  rewrite (indexOf_framed _ La).
  replace (a ++ o :: (p ++ [closer o]) ++ b)
    with ((a ++ o :: p) ++ closer o :: b)
    by (rewrite <- !app_assoc; reflexivity).
  rewrite (lastIndexOf_framed _ Lb), length_app. cbn [length].
  destruct (Z.eqb_spec (Z.of_nat (length a)) (-1)); [lia |].
  destruct (Z.eqb_spec (Z.of_nat (length a + S (length p))) (-1)); [lia |].
  destruct (Z.ltb_spec (Z.of_nat (length a))
              (Z.of_nat (length a + S (length p)))); [| lia].
  cbn [negb andb]. f_equal.
  replace ((a ++ o :: p) ++ closer o :: b)
    with (a ++ (o :: p ++ [closer o]) ++ b)
    by (rewrite <- ?app_assoc; cbn [app]; rewrite <- ?app_assoc;
        reflexivity).
  replace (Z.of_nat (length a + S (length p)) + 1)%Z
    with (Z.of_nat (length a + length (o :: p ++ [closer o])))
    by (cbn [length]; rewrite length_app; simpl; lia).
  apply substring_middle.
Qed.

Lemma between_sound (s c : jsstring) (o : char16) :
  opener o -> Legacy.between s o (closer o) = Some c -> delimited c.
Proof.
  intros O H. destruct (between_shape _ O H) as (a & p & b & _ & -> & _).
  now exists o, p.
Qed.

(** X18: whatever the earlier extractor returns is an object or array
    text, from an opening delimiter to its closer, that [JSON.parse]
    accepts. *)
Theorem legacy_extracted_text_is_sound (input c : jsstring) :
  Legacy.extractJsonFromString input = Some c ->
  delimited c /\ JSON_parse c <> None.
Proof.
  assert (B : forall s k,
             Legacy.between s open_brace close_brace = Some k ->
             delimited k)
    by (intros s k; apply (@between_sound s k open_brace); now left).
  assert (K : forall s k,
             Legacy.between s open_bracket close_bracket = Some k ->
             delimited k)
    by (intros s k; apply (@between_sound s k open_bracket); now right).
  assert (P : forall k, Legacy.parses k = true -> JSON_parse k <> None)
    by (intros k; unfold Legacy.parses; destruct (JSON_parse k); congruence).
  unfold Legacy.extractJsonFromString.
  destruct (Legacy.jsonCandidate input) as [[| x k] |] eqn:J;
    try discriminate.
  destruct (Legacy.parses (x :: k)) eqn:V.
  - intros [= <-]. split; [| now apply P].
    unfold Legacy.jsonCandidate in J.
    destruct (Legacy.between input open_brace close_brace) eqn:E.
    + injection J as <-. eapply B, E.
    + eapply K, J.
  - unfold Legacy.retry.
    destruct (Legacy.between (Legacy.cleanedInput input) open_brace
                close_brace) as [f |] eqn:E;
      [destruct (Legacy.parses f) eqn:Pf |];
      try (intros [= <-]; split; [eapply B, E | now apply P]);
      destruct (Legacy.between (Legacy.cleanedInput input) open_bracket
                  close_bracket) as [g |] eqn:G;
      try discriminate;
      destruct (Legacy.parses g) eqn:Pg; try discriminate;
      intros [= <-]; (split; [eapply K, G | now apply P]).
Qed.

Lemma legacy_extracted_text_is_sound_witness :
  delimited (jq "[1, 2]") /\ JSON_parse (jq "[1, 2]") <> None.
Proof.
  apply (@legacy_extracted_text_is_sound (jq "{oops ```json [1, 2] ``` ")).
  reflexivity.
Defined.

(** ** The two extractors on replies without fence markers *)

Lemma trimStart_spaces (s : jsstring) :
  exists w, s = w ++ trimStart s /\ Forall (fun x => is_space x = true) w.
Proof.
  induction s as [| c s (w & E & F)]; [now exists [] |]. simpl.
  destruct (is_space c) eqn:C; [| now exists []].
  exists (c :: w). split; [simpl; now f_equal | now constructor].
Qed.

Lemma trimEnd_spaces (s : jsstring) :
  exists w, s = trimEnd s ++ w /\ Forall (fun x => is_space x = true) w.
Proof.
  induction s as [| c s (w & E & F)]; [now exists [] |]. simpl.
  destruct (trimEnd s) as [| y t].
  - destruct (is_space c) eqn:C.
    + exists (c :: w). split; [simpl in *; now f_equal | now constructor].
    + exists w. split; [simpl in *; now f_equal | assumption].
  - exists w. split; [simpl in *; now f_equal | assumption].
Qed.

Lemma spaces_lack (c : char16) (w : jsstring) :
  is_space c = false -> Forall (fun x => is_space x = true) w -> lacks c w.
Proof.
  intros C F. unfold lacks. eapply Forall_impl; [| exact F].
  intros x X E. subst. congruence.
Qed.

Lemma slice_is_between (s c : jsstring) :
  sliceCandidate s = Some c ->
  exists o k, opener o /\ c = o :: k
              /\ Legacy.between s o (closer o) = Some c.
Proof.
  intros H.
  destruct (sliceCandidate_shape _ H) as (a & p & b & o & O & _ & Ec).
  exists o, (p ++ [closer o]). split; [exact O |]. split; [exact Ec |].
  revert H. unfold sliceCandidate, Legacy.between.
  destruct (firstCharIndex_cases s) as [E | (o' & O' & E & N)];
    [now rewrite E |].
  rewrite E.
  destruct (Z.eqb_spec (indexOf s [o']) (-1)); [congruence |].
  destruct (indexOf_nth _ _ N) as [F0 Fn].
  assert (C : charAt s (indexOf s [o']) = Some o').
  { unfold charAt. destruct (Z.ltb_spec (indexOf s [o']) 0);
      [lia | exact Fn]. }
  rewrite (lastCharIndex_of_opener _ _ O' C).
  destruct (Z.eqb_spec (lastIndexOf s [closer o']) (-1)) as [L | L];
    [discriminate |].
  destruct (Z.ltb_spec (lastIndexOf s [closer o']) (indexOf s [o']))
    as [R | R]; [discriminate |].
  cbn [orb]. intros Hs.
  assert (o' = o).
  { destruct (lastIndexOf_nth _ _ L) as [L0 Ln].
    assert (S : Z.to_nat (indexOf s [o'])
                < Z.to_nat (lastIndexOf s [closer o'])).
    { assert (indexOf s [o'] <> lastIndexOf s [closer o']).
      { intros Q. rewrite Q in Fn. rewrite Fn in Ln.
        injection Ln as Ln. symmetry in Ln.
        now apply closer_differs in Ln. }
      lia. }
    destruct (nth_error_split2 _ Fn Ln S) as (a' & p' & b' & E' & La & Ld).
    injection Hs as Hs. rewrite Ec in Hs.
    remember (indexOf s [o']) as i eqn:Ei.
    remember (lastIndexOf s [closer o']) as j eqn:Ej.
    clear Ei Ej E N C L R Fn Ln. subst s.
    replace i with (Z.of_nat (length a')) in Hs by lia.
    replace (j + 1)%Z
      with (Z.of_nat (length a' + length (o' :: p' ++ [closer o'])))
      in Hs by lia.
    rewrite substring_middle in Hs. now injection Hs. }
  subst o'.
  destruct (Z.eqb_spec (indexOf s [o]) (-1)); [congruence |].
  destruct (Z.eqb_spec (lastIndexOf s [closer o]) (-1)); [congruence |].
  destruct (Z.ltb_spec (indexOf s [o]) (lastIndexOf s [closer o]));
    [exact Hs |].
  exfalso.
  destruct (lastIndexOf_nth _ _ L) as [L0 Ln].
  assert (Q : indexOf s [o] = lastIndexOf s [closer o]) by lia.
  rewrite Q in Fn. rewrite Fn in Ln. injection Ln as Ln.
  symmetry in Ln. now apply closer_differs in Ln.
Qed.

(** X19: on a reply that holds no run of three backticks, an object text
    returned by the extractor is also what the earlier extractor
    returns. *)
Theorem extractors_agree_on_objects (input k : jsstring) :
  fence_free input = true ->
  extractJsonFromString input = Some (open_brace :: k) ->
  Legacy.extractJsonFromString input = Some (open_brace :: k).
Proof.
  intros F H.
  assert (P : Legacy.parses (open_brace :: k) = true).
  { destruct (extracted_shape _ H) as (_ & _ & _ & _ & _ & P).
    unfold Legacy.parses. destruct (JSON_parse (open_brace :: k));
      congruence. }
  assert (S : sliceCandidate (trim input) = Some (open_brace :: k)).
  { revert H. unfold extractJsonFromString, jsonCandidate, cleanedInput.
    rewrite (CleaningMore.remove_fences_fence_free _ F).
    destruct (sliceCandidate (trim input)) as [[| x r] |];
      try discriminate.
    destruct (JSON_parse (x :: r)); [| discriminate]. now intros [= -> ->]. }
  destruct (slice_is_between _ S) as (o & k' & O & E & B).
  injection E as <- <-.
  assert (Ob : opener open_brace) by now left.
  destruct (between_shape _ Ob B) as (a & p & b & Et & Ek & La & Lb).
  destruct (trimStart_spaces input) as (w1 & E1 & W1).
  destruct (trimEnd_spaces (trimStart input)) as (w2 & E2 & W2).
  fold (trim input) in E2.
  assert (J : Legacy.between input open_brace close_brace
              = Some (open_brace :: k)).
  { rewrite E1, E2, Et, Ek.
    replace (w1 ++ (a ++ (open_brace :: p ++ [closer open_brace]) ++ b)
             ++ w2)
      with ((w1 ++ a) ++ (open_brace :: p ++ [closer open_brace])
            ++ (b ++ w2))
      by (rewrite <- !app_assoc; reflexivity).
    apply (@between_framed (w1 ++ a) p (b ++ w2) open_brace Ob).
    - apply Forall_app. split; [| exact La]. now apply spaces_lack.
    - apply Forall_app. split; [exact Lb |]. now apply spaces_lack. }
  unfold Legacy.extractJsonFromString, Legacy.jsonCandidate.
  rewrite J, P. reflexivity.
Qed.

Lemma extractors_agree_on_objects_witness :
  Legacy.extractJsonFromString (jq " Hasil: {'days': [1, 2]} (selesai) ")
  = Some (jq "{'days': [1, 2]}").
Proof.
  apply (@extractors_agree_on_objects
           (jq " Hasil: {'days': [1, 2]} (selesai) ")
           (jq "'days': [1, 2]}"));
    reflexivity.
Defined.

End LegacyMore.

(* ================================================================== *)
(** * White space around the reply *)
(* ================================================================== *)

Module WhiteSpaceMore.

Lemma space_is_no_backtick (c : char16) :
  is_space c = true -> char_eqb backtick c = false.
Proof.
  intros S. apply char_eqb_neq. intros <-. discriminate.
Qed.

(** White space outside a literal does not take part in a match of it. *)
Lemma starts_with_spaces (lit : string) (x w : jsstring) :
  forallb (fun c => negb (is_space c)) (str lit) = true ->
  Forall (fun c0 : char16 => is_space c0 = true) w ->
  starts_with (str lit) (x ++ w) = starts_with (str lit) x.
Proof.
  intros V W. revert x. induction (str lit) as [| p pat IH]; intros x;
    [reflexivity |].
  cbn [forallb] in V. apply andb_prop in V as [Vp V].
  apply negb_true_iff in Vp.
  destruct x as [| c x]; cbn [app starts_with].
  - destruct W as [| c w C W]; [reflexivity |]. cbn [starts_with].
    replace (char_eqb p c) with false; [reflexivity |].
    symmetry. apply char_eqb_neq. intros <-. congruence.
  - now rewrite IH.
Qed.

Lemma leading_spaces_all (w : jsstring) :
  Forall (fun c0 : char16 => is_space c0 = true) w -> leading_spaces w = length w.
Proof.
  induction 1 as [| c w C W IH]; [reflexivity |]. simpl.
  now rewrite C, IH.
Qed.

Lemma leading_spaces_app (x w : jsstring) :
  Forall (fun c0 : char16 => is_space c0 = true) w ->
  leading_spaces (x ++ w)
  = if Nat.eqb (leading_spaces x) (length x)
    then length x + length w
    else leading_spaces x.
Proof.
  intros W. induction x as [| c x IH].
  - simpl. now apply leading_spaces_all.
  - cbn [app leading_spaces length]. destruct (is_space c); [| reflexivity].
    rewrite IH. cbn [Nat.eqb].
    destruct (Nat.eqb (leading_spaces x) (length x)); reflexivity.
Qed.

Lemma fence_tag_length_spaces (x w : jsstring) :
  Forall (fun c0 : char16 => is_space c0 = true) w -> fence_tag_length (x ++ w) = fence_tag_length x.
Proof.
  intros W. unfold fence_tag_length.
  now rewrite !starts_with_spaces by (reflexivity || assumption).
Qed.

(** A match at the head of [x ++ w] is the match at the head of [x],
    unless that one runs to the end of [x]: then it takes [w] too. *)
Lemma match_fence_spaces (x w : jsstring) :
  Forall (fun c0 : char16 => is_space c0 = true) w ->
  match_fence (x ++ w) = match_fence x
  \/ (match_fence x = Some (length x)
      /\ match_fence (x ++ w) = Some (length x + length w)).
Proof.
  intros W. unfold match_fence.
  rewrite starts_with_spaces by (reflexivity || assumption).
  destruct (starts_with (str "```") x) eqn:B; [| now left].
  apply starts_with_length in B. change (length (str "```")) with 3 in B.
  pose proof (fence_tag_length_le (skipn 3 x)) as T.
  rewrite length_skipn in T.
  rewrite (skipn_app 3). replace (3 - length x) with 0 by lia.
  rewrite skipn_O, fence_tag_length_spaces by assumption.
  set (t := fence_tag_length (skipn 3 x)) in *.
  rewrite skipn_app. replace (3 + t - length x) with 0 by lia.
  rewrite skipn_O, leading_spaces_app by assumption.
  pose proof (leading_spaces_le (skipn (3 + t) x)) as S.
  rewrite length_skipn in *.
  destruct (Nat.eqb_spec (leading_spaces (skipn (3 + t) x))
              (length x - (3 + t))) as [E | E]; [right | now left].
  rewrite E. split; f_equal; lia.
Qed.

Lemma remove_fences_from_all (s : jsstring) (k : nat) :
  length s <= k -> remove_fences_from s k = [].
Proof.
  revert k. induction s as [| c s IH]; intros k K; [reflexivity |].
  destruct k as [| k]; [simpl in K; lia |].
  cbn [remove_fences_from]. apply IH. simpl in K. lia.
Qed.

Lemma remove_fences_from_spaces (w : jsstring) (k : nat) :
  Forall (fun c0 : char16 => is_space c0 = true) w -> remove_fences_from w k = skipn k w.
Proof.
  intros W. revert k. induction W as [| c w C W IH]; intros k;
    [now destruct k |].
  destruct k as [| k]; cbn [remove_fences_from skipn]; [| apply IH].
  rewrite no_fence_no_match.
  - now rewrite IH.
  - change (str "```") with [backtick; backtick; backtick].
    rewrite starts_with_cons. now rewrite space_is_no_backtick.
Qed.

(** White space after a text only leaves white space after what is kept
    of the text. *)
Lemma remove_fences_from_trailing (x w : jsstring) (k : nat) :
  Forall (fun c0 : char16 => is_space c0 = true) w ->
  exists w', Forall (fun c0 : char16 => is_space c0 = true) w'
             /\ remove_fences_from (x ++ w) k = remove_fences_from x k ++ w'.
Proof.
  intros W. revert k. induction x as [| c x IH]; intros k.
  - exists (skipn k w). split.
    + rewrite <- (firstn_skipn k w) in W. now apply Forall_app in W.
    + cbn [app]. rewrite remove_fences_from_spaces by assumption.
      now destruct k.
  - cbn [app]. destruct k as [| k]; cbn [remove_fences_from]; [| apply IH].
    change (c :: x ++ w) with ((c :: x) ++ w).
    destruct (match_fence_spaces (c :: x) W) as [E | [E1 E2]].
    + rewrite E. destruct (match_fence (c :: x)) as [n |].
      * apply IH.
      * destruct (IH 0) as (w' & W' & E'). exists w'.
        split; [assumption |]. now rewrite E'.
    + rewrite E1, E2. exists []. split; [constructor |].
      rewrite !remove_fences_from_all; [reflexivity | |];
        cbn [length]; rewrite ?length_app; lia.
Qed.

Lemma remove_fences_leading (w x : jsstring) :
  Forall (fun c0 : char16 => is_space c0 = true) w -> remove_fences (w ++ x) = w ++ remove_fences x.
Proof.
  unfold remove_fences. induction 1 as [| c w C W IH]; [reflexivity |].
  cbn [app]. rewrite head_kept; [now rewrite IH |].
  change (str "```") with [backtick; backtick; backtick].
  rewrite starts_with_cons. now rewrite space_is_no_backtick.
Qed.

Lemma trimStart_leading (w x : jsstring) :
  Forall (fun c0 : char16 => is_space c0 = true) w -> trimStart (w ++ x) = trimStart x.
Proof.
  induction 1 as [| c w C W IH]; [reflexivity |]. simpl. now rewrite C.
Qed.

Lemma trimEnd_spaces_only (w : jsstring) : Forall (fun c0 : char16 => is_space c0 = true) w -> trimEnd w = [].
Proof.
  induction 1 as [| c w C W IH]; [reflexivity |]. simpl.
  now rewrite IH, C.
Qed.

Lemma trimEnd_trailing (x w : jsstring) :
  Forall (fun c0 : char16 => is_space c0 = true) w -> trimEnd (x ++ w) = trimEnd x.
Proof.
  intros W. induction x as [| c x IH].
  - simpl. now apply trimEnd_spaces_only.
  - cbn [app trimEnd]. now rewrite IH.
Qed.

Lemma trim_surrounded (w1 x w2 : jsstring) :
  Forall (fun c0 : char16 => is_space c0 = true) w1 -> Forall (fun c0 : char16 => is_space c0 = true) w2 -> trim (w1 ++ x ++ w2) = trim x.
Proof.
  intros W1 W2. unfold trim. rewrite trimStart_leading by assumption.
  destruct (LegacyMore.trimStart_spaces x) as (u & E & U).
  destruct (CleaningMore.trimStart_head x) as [N | (c & r & N & C)].
  - rewrite N in E. rewrite app_nil_r in E. subst u.
    rewrite N. rewrite <- (app_nil_r (x ++ w2)).
    rewrite trimStart_leading by (apply Forall_app; now split).
    reflexivity.
  - rewrite E at 1. rewrite <- app_assoc, trimStart_leading by assumption.
    rewrite N. cbn [app trimStart]. rewrite C.
    change (c :: r ++ w2) with ((c :: r) ++ w2).
    now apply trimEnd_trailing.
Qed.

Lemma cleanedInput_surrounded (w1 s w2 : jsstring) :
  Forall (fun c0 : char16 => is_space c0 = true) w1 -> Forall (fun c0 : char16 => is_space c0 = true) w2 ->
  cleanedInput (w1 ++ s ++ w2) = cleanedInput s.
Proof.
  intros W1 W2. unfold cleanedInput.
  rewrite remove_fences_leading by assumption. unfold remove_fences.
  destruct (remove_fences_from_trailing s 0 W2) as (w' & W' & E).
  rewrite E. now apply trim_surrounded.
Qed.

(** X20: white space before and after a text does not change what the
    extractor returns; in particular the pipeline extracts from the
    trimmed reply what it would extract from the reply itself. *)
Theorem white_space_around_is_ignored (w1 s w2 t : jsstring) :
  Forall (fun c0 : char16 => is_space c0 = true) w1 -> Forall (fun c0 : char16 => is_space c0 = true) w2 ->
  extractJsonFromString (w1 ++ s ++ w2) = extractJsonFromString s
  /\ extractJsonFromString (trim t) = extractJsonFromString t.
Proof.
  intros W1 W2. split.
  - unfold extractJsonFromString, jsonCandidate.
    now rewrite cleanedInput_surrounded.
  - destruct (LegacyMore.trimStart_spaces t) as (u1 & E1 & U1).
    destruct (LegacyMore.trimEnd_spaces (trimStart t)) as (u2 & E2 & U2).
    fold (trim t) in E2.
    assert (T : t = u1 ++ trim t ++ u2) by (rewrite <- E2; exact E1).
    pose proof (cleanedInput_surrounded (trim t) U1 U2) as C.
    unfold extractJsonFromString, jsonCandidate.
    rewrite <- C, <- T. reflexivity.
Qed.

Lemma white_space_around_is_ignored_witness :
  extractJsonFromString (str "  " ++ jq "ok: {'a': 1} ```" ++ nl)
  = extractJsonFromString (jq "ok: {'a': 1} ```")
  /\ extractJsonFromString (trim (jq " [1] "))
     = extractJsonFromString (jq " [1] ").
Proof.
  apply (@white_space_around_is_ignored (str "  ")
           (jq "ok: {'a': 1} ```") nl (jq " [1] "));
    repeat constructor.
Defined.

End WhiteSpaceMore.

(* ================================================================== *)
(** * What a returned result and a failed location guarantee *)
(* ================================================================== *)

Module ResultMore.

Lemma returned_cases (host : Host) (client : ModelClient)
  (p : TravelPreferences) (r : ItineraryResult) (n : nat) :
  run client 0 (generateItinerary host p) = (Returned r, n) ->
  (exists raw, r = fallbackResult host p raw)
  \/ invalidStructure (itineraryData r) = false.
Proof.
  rewrite Failures.run_generateItinerary. unfold tryBlock.
  destruct (client 0 (request host p)) as [response | reason];
    [| discriminate].
  destruct (text response) as [t |]; [| discriminate].
  destruct (extractJsonFromString (trim t)) as [[| x c] |];
    try (intros [= <- _]; left; now eexists).
  destruct (useMapsGrounding p);
    destruct (JSON_parse (x :: c)) as [v |];
    try destruct (invalidStructure v) eqn:I;
    try discriminate;
    try (intros [= <- _]; left; now eexists);
    intros [= <- _]; now right.
Qed.

Lemma fallback_checked (host : Host) (p : TravelPreferences)
  (raw : jsstring) :
  destination p <> [] ->
  invalidStructure (fallbackItinerary host p raw) = false.
Proof.
  intros D. destruct p as [d du i b c la lo]. cbn [destination] in D.
  unfold invalidStructure, fallbackItinerary, get_property.
  cbn [destination]. vm_compute (lookup_member _ _).
  cbn [truthy truthy_opt isArray negb orb].
  destruct d; [now contradiction D | reflexivity].
Qed.

(** X21: a result that comes with source URLs always carries data that
    passed the structural check, the fallback never having any; and when
    the destination of the preferences is not empty, as the form
    ensures, every returned result, fallback or not, passes that
    check. *)
Theorem returned_data_is_checked (host : Host) (client : ModelClient)
  (p : TravelPreferences) (r : ItineraryResult) (n : nat) :
  run client 0 (generateItinerary host p) = (Returned r, n) ->
  (sourceUrls r <> [] -> invalidStructure (itineraryData r) = false)
  /\ (destination p <> [] -> invalidStructure (itineraryData r) = false).
Proof.
  intros H. destruct (returned_cases _ _ _ H) as [[raw ->] | V].
  - split.
    + intros U. now contradiction U.
    + intros D. cbn [fallbackResult itineraryData].
      now apply fallback_checked.
  - now split.
Qed.

Lemma returned_data_is_checked_witness :
  invalidStructure
    (fallbackItinerary sample_host kyoto (str "Maaf, tidak bisa."))
  = false.
Proof.
  apply (proj2 (@returned_data_is_checked sample_host
                  (always (Fulfilled (reply (str "Maaf, tidak bisa.") None)))
                  kyoto
                  (fallbackResult sample_host kyoto (str "Maaf, tidak bisa."))
                  1 eq_refl)).
  discriminate.
Defined.

Lemma geoErrorMessage_nonempty (code : N) :
  Form.string_truthy (App.geoErrorMessage code) = true.
Proof.
  unfold App.geoErrorMessage.
  destruct (code =? 1)%N; [reflexivity |].
  destruct (code =? 2)%N; [reflexivity |].
  destruct (code =? 3)%N; reflexivity.
Qed.

(** X22: after a geolocation error of any code, and after a request on a
    browser without geolocation, the stored coordinates are cleared, a
    message that is not empty is set, the search for the location is
    over, and the location is not usable: a submission then sends the
    preferences as they are. A later position makes the location usable
    again when both coordinates are truthy. *)
Theorem failed_location_is_not_sent (s : App.AppState) (code : N)
  (p : TravelPreferences) (x y : number) :
  (App.locationUsable (App.onGeoError code s) = false
   /\ App.currentLatitude (App.onGeoError code s) = None
   /\ App.currentLongitude (App.onGeoError code s) = None
   /\ App.locationError (App.onGeoError code s)
      = Some (App.geoErrorMessage code)
   /\ App.geoErrorMessage code <> []
   /\ App.isGettingLocation (App.onGeoError code s) = false
   /\ App.fullPreferences (App.onGeoError code s) p = p)
  /\ (App.geolocationEnabled s = true ->
      App.locationUsable (App.requestGeolocation false s) = false
      /\ App.currentLatitude (App.requestGeolocation false s) = None
      /\ App.currentLongitude (App.requestGeolocation false s) = None
      /\ App.locationError (App.requestGeolocation false s)
         = Some App.unsupported_text
      /\ App.unsupported_text <> []
      /\ App.isGettingLocation (App.requestGeolocation false s) = false
      /\ App.fullPreferences (App.requestGeolocation false s) p = p)
  /\ (App.geolocationEnabled s = true ->
      number_truthy x = true -> number_truthy y = true ->
      App.locationUsable (App.onPosition x y (App.onGeoError code s))
      = true
      /\ App.currentLatitude (App.onPosition x y (App.onGeoError code s))
         = Some x
      /\ App.currentLongitude (App.onPosition x y (App.onGeoError code s))
         = Some y
      /\ App.locationError (App.onPosition x y (App.onGeoError code s))
         = None).
Proof.
  assert (M : App.geoErrorMessage code <> []).
  { pose proof (geoErrorMessage_nonempty code) as T.
    destruct (App.geoErrorMessage code); [discriminate | discriminate]. }
  assert (E : App.locationUsable (App.onGeoError code s) = false).
  { unfold App.locationUsable. cbn.
    rewrite geoErrorMessage_nonempty. cbn. apply andb_false_r. }
  split; [| split].
  - split; [exact E |]. split; [reflexivity |]. split; [reflexivity |].
    split; [reflexivity |]. split; [exact M |]. split; [reflexivity |].
    unfold App.fullPreferences. now rewrite E.
  - intros G.
    assert (R : App.requestGeolocation false s
                = App.withLocation s None None false
                    (Some App.unsupported_text)).
    { unfold App.requestGeolocation. now rewrite G. }
    assert (U : App.locationUsable (App.requestGeolocation false s) = false).
    { rewrite R. unfold App.locationUsable. cbn. now rewrite G. }
    split; [exact U |]. rewrite R at 1 2 3 4.
    split; [reflexivity |]. split; [reflexivity |].
    split; [reflexivity |]. split; [discriminate |].
    split; [reflexivity |].
    unfold App.fullPreferences. now rewrite U.
  - intros G X Y. split; [| now repeat split].
    unfold App.locationUsable. cbn. now rewrite G, X, Y.
Qed.

Lemma failed_location_is_not_sent_witness :
  App.locationUsable (App.requestGeolocation false located_state) = false
  /\ App.locationUsable
       (App.onPosition (whole 35) (whole 135)
          (App.onGeoError 3 located_state)) = true.
Proof.
  destruct (failed_location_is_not_sent located_state 3 kyoto
              (whole 35) (whole 135)) as (_ & U & P).
  split; [apply U; reflexivity | apply P; reflexivity].
Defined.

End ResultMore.

(* ================================================================== *)
(** * Structural mismatch in Structured mode *)
(* ================================================================== *)

Module StructuredMode.

Lemma refused_value (v : value) :
  (forall d, field v "destination" = Some d -> truthy d = false)
  \/ (forall l, field v "itinerary" <> Some (JArray l)) ->
  invalidStructure v = true.
Proof.
  intros H. destruct (invalidStructure v) eqn:I; [reflexivity |].
  apply Validator.accepted_shape in I
    as (members & d & l & -> & Hd & Td & Hi).
  destruct H as [H | H].
  - specialize (H d Hd). congruence.
  - now contradiction (H l).
Qed.

(** C3, as stated, fails in Structured mode on both of its cases. A reply
    whose destination is present and is the empty sequence lacks a
    non-empty destination, yet it is returned as the itinerary data. And
    a slice that does not parse is never thrown: the extractor answers
    no-match and the fallback is returned. *)
Lemma structured_mode_recovers :
  useMapsGrounding kyoto = false
  /\ (exists v,
        JSON_parse (jq "{'destination':[],'itinerary':[]}") = Some v
        /\ field v "destination" = Some (JArray [])
        /\ run (always (Fulfilled
                  (reply (jq "{'destination':[],'itinerary':[]}") None))) 0
             (generateItinerary sample_host kyoto)
           = (Returned {| itineraryData := v; sourceUrls := [] |}, 1))
  /\ jsonCandidate (trim (jq "{'trip': {'days': 3}"))
     = Some (jq "{'trip': {'days': 3}")
  /\ JSON_parse (jq "{'trip': {'days': 3}") = None
  /\ run (always (Fulfilled (reply (jq "{'trip': {'days': 3}") None))) 0
       (generateItinerary sample_host kyoto)
     = (Returned (fallbackResult sample_host kyoto
                    (jq "{'trip': {'days': 3}")), 1).
Proof.
  split; [reflexivity |]. split.
  - eexists. split; [vm_compute; reflexivity |]. split; reflexivity.
  - split; [reflexivity |]. split; reflexivity.
Qed.

(** C3 (amended): in Structured mode, when the text taken by the
    extractor parses to a value that lacks a truthy destination (the
    destination is absent, or is null, false, zero, NaN or the empty
    text) or lacks a sequence-valued itinerary, the mismatch is thrown
    to the caller, as the error with the invalid-JSON message behind the
    API prefix, and nothing is returned, the fallback included. A slice
    that fails to parse is not such a mismatch: the extractor then
    answers no-match and the pipeline returns the fallback, with no
    source URLs, in Structured mode as well. *)
Theorem structured_refusal_is_thrown (host : Host) (client : ModelClient)
  (p : TravelPreferences) (response : Response) (t : jsstring) :
  useMapsGrounding p = false ->
  client 0 (request host p) = Fulfilled response ->
  text response = Some t ->
  (forall c v,
      extractJsonFromString (trim t) = Some c ->
      JSON_parse c = Some v ->
      (forall d, field v "destination" = Some d -> truthy d = false)
      \/ (forall l, field v "itinerary" <> Some (JArray l)) ->
      run client 0 (generateItinerary host p)
      = (Thrown (Error (api_error_prefix ++ invalid_json_message)), 1)
      /\ forall result n,
          run client 0 (generateItinerary host p) <> (Returned result, n))
  /\ (forall c,
      jsonCandidate (trim t) = Some c ->
      JSON_parse c = None ->
      exists data,
        run client 0 (generateItinerary host p)
        = (Returned {| itineraryData := data; sourceUrls := [] |}, 1)
        /\ isFallback host p (trim t) data)
  /\ (forall d,
      truthy d = false <->
      d = JNull \/ d = JBool false \/ d = JString []
      \/ (exists sign, d = JNumber (S754_zero sign))
      \/ d = JNumber S754_nan).
Proof.
  intros G Hc Ht. split; [| split].
  - intros c v He Hp Hr.
    apply (@Recovery.structured_mismatch_is_thrown host client p response
             t c G Hc Ht He).
    unfold structuralMismatch. rewrite Hp. now apply refused_value.
  - intros c Hj Hp.
    assert (N : extractJsonFromString (trim t) = None).
    { unfold extractJsonFromString. rewrite Hj.
      destruct c; [reflexivity |]. now rewrite Hp. }
    exists (fallbackItinerary host p (trim t)).
    split; [| apply Recovery.fallback_fields].
    rewrite Failures.run_generateItinerary, Hc. unfold tryBlock.
    now rewrite Ht, N.
  - intros d. split.
    + destruct d as [| [|] | [s | s | | s m e] | [| c k] | l | m];
        simpl; try discriminate; intros _; eauto 6.
    + intros [-> | [-> | [-> | [[sign ->] | ->]]]]; reflexivity.
Qed.

Lemma structured_refusal_is_thrown_witness :
  run (always (Fulfilled
         (reply (jq "{'destination':'Kyoto','itinerary':'none'}") None))) 0
    (generateItinerary sample_host kyoto)
  = (Thrown (Error (str "Kesalahan API Gemini: Respons JSON tidak valid dari API, atau data terstruktur hilang.")), 1)
  /\ exists data,
      run (always (Fulfilled (reply (jq "{'trip': {'days': 3}") None))) 0
        (generateItinerary sample_host kyoto)
      = (Returned {| itineraryData := data; sourceUrls := [] |}, 1)
      /\ isFallback sample_host kyoto (jq "{'trip': {'days': 3}") data.
Proof.
  split.
  - destruct (@structured_refusal_is_thrown sample_host
                (always (Fulfilled
                   (reply (jq "{'destination':'Kyoto','itinerary':'none'}")
                      None)))
                kyoto _ (jq "{'destination':'Kyoto','itinerary':'none'}")
                eq_refl eq_refl eq_refl) as (T & _ & _).
    apply (T (jq "{'destination':'Kyoto','itinerary':'none'}")
             (JObject [(str "destination", JString (str "Kyoto"));
                       (str "itinerary", JString (str "none"))])).
    + reflexivity.
    + vm_compute. reflexivity.
    + right. intros l. discriminate.
  - destruct (@structured_refusal_is_thrown sample_host
                (always (Fulfilled (reply (jq "{'trip': {'days': 3}") None)))
                kyoto _ (jq "{'trip': {'days': 3}")
                eq_refl eq_refl eq_refl) as (_ & F & _).
    apply (F (jq "{'trip': {'days': 3}")); reflexivity.
Defined.

End StructuredMode.
